(** * trino_server.py: the read-only query gate, the result formatter and
    the tool operations, embedded in Rocq.

    Text is modelled as [string] (a sequence of 8-bit characters).  The
    character classes of Python's [re] ([\s], [\w], [\b]), [str.split],
    [str.strip] and [str.upper] are modelled on the 7-bit ASCII range; a
    character above 127 is neither white space nor a word character and is
    left alone by [upper]. *)

From Stdlib Require Import String Ascii List Bool ZArith Lia.
Import ListNotations.
Local Open Scope string_scope.
Local Open Scope Z_scope.

(** ** Characters *)

Module Chars.

Definition code (c : ascii) : N := N_of_ascii c.

Definition between (lo hi : N) (c : ascii) : bool :=
  ((lo <=? code c) && (code c <=? hi))%N.

(** [str.isspace] on ASCII: tab, newline, vertical tab, form feed,
    carriage return, the four separators 0x1c..0x1f and the space. *)
Definition isspace (c : ascii) : bool :=
  between 9 13 c || between 28 31 c || (code c =? 32)%N.

Definition isupper (c : ascii) : bool := between 65 90 c.
Definition islower (c : ascii) : bool := between 97 122 c.
Definition isdigit (c : ascii) : bool := between 48 57 c.

(** The class [\w] of [re]: letters, digits and the underscore. *)
Definition isword (c : ascii) : bool :=
  isupper c || islower c || isdigit c || (code c =? 95)%N.

Definition upper_char (c : ascii) : ascii :=
  if islower c then ascii_of_N (code c - 32) else c.

Definition lower_char (c : ascii) : ascii :=
  if isupper c then ascii_of_N (code c + 32) else c.

Definition newline : ascii := "010"%char.

End Chars.
Import Chars.

(** ** The string methods the server calls *)

Fixpoint upper (s : string) : string :=
  match s with
  | EmptyString => EmptyString
  | String c t => String (upper_char c) (upper t)
  end.

Fixpoint lower (s : string) : string :=
  match s with
  | EmptyString => EmptyString
  | String c t => String (lower_char c) (lower t)
  end.

(** [s.startswith(p)] *)
Fixpoint startswith (p s : string) : bool :=
  match p with
  | EmptyString => true
  | String a p' =>
      match s with
      | EmptyString => false
      | String b s' => Ascii.eqb a b && startswith p' s'
      end
  end.

(** [p in s] *)
Fixpoint contains (p s : string) : bool :=
  startswith p s ||
  match s with
  | EmptyString => false
  | String _ t => contains p t
  end.

Fixpoint drop_while (f : ascii -> bool) (s : string) : string :=
  match s with
  | EmptyString => EmptyString
  | String c t => if f c then drop_while f t else s
  end.

(** Dropping a class of characters at the end: a character is kept when it
    is not of the class or when something is kept after it. *)
Fixpoint drop_end (f : ascii -> bool) (s : string) : string :=
  match s with
  | EmptyString => EmptyString
  | String c t =>
      match drop_end f t with
      | EmptyString => if f c then EmptyString else String c EmptyString
      | r => String c r
      end
  end.

(** Every character of the text is in the class. *)
Fixpoint all_chars (f : ascii -> bool) (s : string) : bool :=
  match s with
  | EmptyString => true
  | String c t => f c && all_chars f t
  end.

Definition lstrip (s : string) : string := drop_while isspace s.
Definition rstrip (s : string) : string := drop_end isspace s.

(** [s.strip()] *)
Definition strip (s : string) : string := rstrip (lstrip s).

(** [s.split()] with no argument: the text is cut at every white-space
    character and the empty pieces are dropped, so a run of white space is
    one separator and no piece is empty. *)
Fixpoint fields (s : string) : list string :=
  match s with
  | EmptyString => [EmptyString]
  | String c t =>
      if isspace c then EmptyString :: fields t
      else match fields t with
           | w :: ws => String c w :: ws
           | [] => [String c EmptyString]
           end
  end.

Definition nonempty (s : string) : bool :=
  match s with EmptyString => false | _ => true end.

Definition split (s : string) : list string := filter nonempty (fields s).

(** [sep.join(ws)] *)
Fixpoint join (sep : string) (ws : list string) : string :=
  match ws with
  | [] => EmptyString
  | [w] => w
  | w :: rest => w ++ sep ++ join sep rest
  end.

(** ** Regular expressions of the query gate

    The gate's patterns use literals, the zero-width word boundary [\b],
    [\s+], [\w+] and an alternation of literals.  A pattern is a sequence
    of such atoms; [match_here] decides whether the pattern matches at the
    current position, given the character before it. *)

Module Re.

Inductive cls := Space | WordChar.

Definition in_cls (k : cls) (c : ascii) : bool :=
  match k with Space => isspace c | WordChar => isword c end.

Inductive atom :=
| Bound                       (* \b *)
| Lit (w : string)            (* a literal *)
| Plus (k : cls)              (* \s+ or \w+ *)
| Alt (ws : list string).     (* (w1|w2|...) *)

Definition pattern := list atom.

Definition word_before (prev : option ascii) : bool :=
  match prev with Some c => isword c | None => false end.

Definition word_after (s : string) : bool :=
  match s with String c _ => isword c | EmptyString => false end.

(** [\b] holds where exactly one side is a word character. *)
Definition at_boundary (prev : option ascii) (s : string) : bool :=
  xorb (word_before prev) (word_after s).

(** Consume the literal [w]: the rest of the text and the last character
    read. *)
Fixpoint eat (w : string) (prev : option ascii) (s : string)
  : option (option ascii * string) :=
  match w with
  | EmptyString => Some (prev, s)
  | String a w' =>
      match s with
      | String b s' => if Ascii.eqb a b then eat w' (Some b) s' else None
      | EmptyString => None
      end
  end.

Fixpoint match_here (p : pattern) : option ascii -> string -> bool :=
  match p with
  | [] => fun _ _ => true
  | Bound :: p' => fun prev s => at_boundary prev s && match_here p' prev s
  | Lit w :: p' => fun prev s =>
      match eat w prev s with
      | Some (prev', s') => match_here p' prev' s'
      | None => false
      end
  | Plus k :: p' =>
      fix plus (prev : option ascii) (s : string) : bool :=
        match s with
        | EmptyString => false
        | String c t =>
            in_cls k c && (plus (Some c) t || match_here p' (Some c) t)
        end
  | Alt ws :: p' => fun prev s =>
      existsb (fun w => match eat w prev s with
                        | Some (prev', s') => match_here p' prev' s'
                        | None => false
                        end) ws
  end.

(** [re.search(p, s)] as a truth value: a match at some position. *)
Fixpoint search_from (p : pattern) (prev : option ascii) (s : string) : bool :=
  match_here p prev s ||
  match s with
  | EmptyString => false
  | String c t => search_from p (Some c) t
  end.

Definition search (p : pattern) (s : string) : bool := search_from p None s.

End Re.
Import Re.

(** ** validate_query *)

(** [re.sub(r'--.*$', '', q, flags=re.MULTILINE)]: from [--] up to, and
    not including, the next newline.  [skipping] is true inside a match. *)
Fixpoint strip_line_comments (skipping : bool) (s : string) : string :=
  match s with
  | EmptyString => EmptyString
  | String c t =>
      if skipping then
        if Ascii.eqb c newline then String c (strip_line_comments false t)
        else strip_line_comments true t
      else if Ascii.eqb c "-" && startswith "-" t
           then strip_line_comments true t
           else String c (strip_line_comments false t)
  end.

(** [re.sub(r'/\*.*?\*/', '', q, flags=re.DOTALL)]: from [/*] to the first
    [*/] after it; an opener with no closer after it is left in place. *)
Inductive block_state :=
| Outside       (* not in a comment *)
| Opener        (* the star of the opener is next *)
| Inside        (* in the body, looking for the closer *)
| Closer.       (* the slash of the closer is next *)

Fixpoint strip_block_comments (st : block_state) (s : string) : string :=
  match s with
  | EmptyString => EmptyString
  | String c t =>
      match st with
      | Outside =>
          if Ascii.eqb c "/" && startswith "*" t &&
             match t with String _ t' => contains "*/" t' | EmptyString => false end
          then strip_block_comments Opener t
          else String c (strip_block_comments Outside t)
      | Opener => strip_block_comments Inside t
      | Inside =>
          if Ascii.eqb c "*" && startswith "/" t
          then strip_block_comments Closer t
          else strip_block_comments Inside t
      | Closer => strip_block_comments Outside t
      end
  end.

Definition strip_comments (query : string) : string :=
  strip_block_comments Outside (strip_line_comments false query).

(** [' '.join(query_clean.split())] *)
Definition normalize_whitespace (s : string) : string := join " " (split s).

Definition query_upper (query : string) : string :=
  upper (normalize_whitespace (strip_comments query)).

Definition kinds : list string := ["TABLE"; "VIEW"; "SCHEMA"; "DATABASE"].

Definition forbidden_patterns : list pattern :=
  [ [Bound; Lit "INSERT"; Plus Space; Lit "INTO"; Bound];
    [Bound; Lit "UPDATE"; Plus Space; Plus WordChar; Plus Space; Lit "SET"; Bound];
    [Bound; Lit "DELETE"; Plus Space; Lit "FROM"; Bound];
    [Bound; Lit "CREATE"; Plus Space; Alt kinds; Bound];
    [Bound; Lit "DROP"; Plus Space; Alt kinds; Bound];
    [Bound; Lit "ALTER"; Plus Space; Alt kinds; Bound];
    [Bound; Lit "MERGE"; Plus Space; Lit "INTO"; Bound];
    [Bound; Lit "TRUNCATE"; Plus Space; Lit "TABLE"; Bound];
    [Bound; Lit "GRANT"; Plus Space; Plus WordChar; Plus Space; Lit "ON"; Bound];
    [Bound; Lit "REVOKE"; Plus Space; Plus WordChar; Plus Space; Lit "ON"; Bound] ].

Definition allowed_starts : list string :=
  ["SELECT"; "WITH"; "SHOW"; "DESCRIBE"; "DESC"; "EXPLAIN"; "VALUES"].

Definition is_lparen (c : ascii) : bool := Ascii.eqb c "(".

(** [re.sub(r'^\s*\(+\s*', '', s)]: the pattern is anchored at the start,
    so at most one match is removed; without a parenthesis after the
    leading white space nothing matches and [s] is returned as it is. *)
Definition strip_open_parens (s : string) : string :=
  let s1 := drop_while isspace s in
  if startswith "(" s1
  then drop_while isspace (drop_while is_lparen s1)
  else s.

Definition starts_allowed (s : string) : bool :=
  existsb (fun keyword => startswith keyword s) allowed_starts.

Definition matches_forbidden (text : string) : bool :=
  existsb (fun p => search p text) forbidden_patterns.

Definition validate_query (query : string) : bool :=
  let q := query_upper query in
  if matches_forbidden q then false
  else
    let query_trimmed := strip q in
    if startswith "(" query_trimmed then
      if negb (starts_allowed (strip_open_parens query_trimmed)) then false
      else true
    else if negb (starts_allowed query_trimmed) then false
    else true.

(** ** White-space normalization as one pass

    [normalize_whitespace] read from left to right: at the start nothing has
    been written, inside a word characters are copied, and after a gap the
    next word is preceded by one space.  Used to reason about
    [' '.join(s.split())]; see [normalize_whitespace_scan]. *)

Inductive scan_state := Start | InWord | Gap.

Fixpoint scan (st : scan_state) (s : string) : string :=
  match s with
  | EmptyString => EmptyString
  | String c t =>
      if isspace c
      then scan (match st with Start => Start | _ => Gap end) t
      else match st with
           | Gap => String " " (String c (scan InWord t))
           | _ => String c (scan InWord t)
           end
  end.

Definition no_space (w : string) : bool :=
  all_chars (fun c => negb (isspace c)) w.

(** Patterns whose matches survive white-space normalization: literals
    hold no white space, and [\s+] is followed by an atom that reads at
    least one character that is not white space. *)
Definition reads_nonspace (p : pattern) : bool :=
  match p with
  | Lit w :: _ => nonempty w
  | Alt ws :: _ => forallb nonempty ws
  | Plus WordChar :: _ => true
  | _ => false
  end.

Fixpoint ws_stable (p : pattern) : bool :=
  match p with
  | [] => true
  | Bound :: p' => ws_stable p'
  | Lit w :: p' => no_space w && ws_stable p'
  | Alt ws :: p' => forallb no_space ws && ws_stable p'
  | Plus WordChar :: p' => ws_stable p'
  | Plus Space :: p' => reads_nonspace p' && ws_stable p'
  end.

(** The pattern reads a character that is not white space where it
    starts, possibly after word boundaries. *)
Fixpoint starts_nonspace (p : pattern) : bool :=
  match p with
  | Bound :: p' => starts_nonspace p'
  | _ => reads_nonspace p
  end.

(** ** Integers as text *)

Definition digit_char (d : Z) : ascii := ascii_of_N (48 + Z.to_N d).

Fixpoint digits_of (fuel : nat) (n : Z) (acc : string) : string :=
  match fuel with
  | O => acc
  | S fuel' =>
      let acc' := String (digit_char (n mod 10)) acc in
      if n <? 10 then acc' else digits_of fuel' (n / 10) acc'
  end.

(** [str(n)] for an integer: the decimal digits, with a minus sign for a
    negative number.  A number below [2^k] has at most [k] digits.  The
    integers the program writes are row counts, row limits and the port;
    the limits and the port were read by [int], so they have at most 4300
    digits and [str] does not raise on them. *)
Definition str_of_int (n : Z) : string :=
  let m := Z.abs n in
  let ds := digits_of (S (Z.to_nat (Z.log2 m))) m EmptyString in
  if n <? 0 then String "-" ds else ds.

(** The white space [int] skips around the number in an ASCII text:
    tab, newline, vertical tab, form feed, carriage return and space. *)
Definition is_c_space (c : ascii) : bool :=
  between 9 13 c || (code c =? 32)%N.

Definition digit_value (c : ascii) : Z := Z.of_N (code c) - 48.

(** Decimal digits, single underscores allowed between two digits. *)
Fixpoint parse_digits (acc : Z) (after_digit : bool) (s : string) : option Z :=
  match s with
  | EmptyString => if after_digit then Some acc else None
  | String c t =>
      if isdigit c then parse_digits (10 * acc + digit_value c) true t
      else if Ascii.eqb c "_" && after_digit then parse_digits acc false t
      else None
  end.

(** The most digits that [int] reads and [str] writes in CPython 3.11 and
    later ([sys.int_max_str_digits]). *)
Definition int_max_str_digits : Z := 4300.

Fixpoint count_digits (s : string) : Z :=
  match s with
  | EmptyString => 0
  | String c t => (if isdigit c then 1 else 0) + count_digits t
  end.

(** The digits after the sign: a text with more than 4300 digit characters
    is refused whatever its value is (leading zeros count, underscores do
    not). *)
Definition read_digits (t : string) : option Z :=
  if count_digits t >? int_max_str_digits then None
  else parse_digits 0 false t.

(** [int(s)]: [None] stands for [ValueError]. *)
Definition int_of_str (s : string) : option Z :=
  match drop_end is_c_space (drop_while is_c_space s) with
  | String c t =>
      if Ascii.eqb c "-" then option_map Z.opp (read_digits t)
      else if Ascii.eqb c "+" then read_digits t
      else read_digits (String c t)
  | EmptyString => None
  end.

(** [s[:n]] *)
Fixpoint take (n : nat) (s : string) : string :=
  match n, s with
  | S n', String c t => String c (take n' t)
  | _, _ => EmptyString
  end.

(** A text written line by line. *)
Definition lines (ls : list string) : string := join (String newline "") ls.

(** ** The engine client and its effects

    The server talks to the engine through [trino.dbapi]: it connects, opens
    a cursor, executes a statement, reads the description and fetches rows,
    and closes the cursor and the connection.  Each of these calls is
    recorded as an event; what the engine answers may depend on everything
    that happened before. *)

Record exn := { exn_type : string; exn_msg : string }.

Record connect_args := {
  arg_host : string;
  arg_port : Z;
  arg_user : string;
  arg_auth : option (string * string);
  arg_http_scheme : string;
  arg_catalog : string;
  arg_schema : string }.

Inductive event :=
| Connect (a : connect_args)
| OpenCursor
| Execute (sql : string)
| Fetchmany (size : Z)
| Fetchone
| CloseCursor
| CloseConn.

Definition trace := list event.

(** A computation that reads and extends the trace and returns a value or
    raises an exception. *)
Definition M (A : Type) : Type := trace -> trace * (exn + A).

Definition ret {A} (a : A) : M A := fun tr => (tr, inr a).

Definition raise {A} (e : exn) : M A := fun tr => (tr, inl e).

Definition bind {A B} (m : M A) (k : A -> M B) : M B :=
  fun tr =>
    match m tr with
    | (tr', inr a) => k a tr'
    | (tr', inl e) => (tr', inl e)
    end.

(** [try: m except Exception as e: h e] *)
Definition try_except {A} (m : M A) (h : exn -> M A) : M A :=
  fun tr =>
    match m tr with
    | (tr', inl e) => h e tr'
    | r => r
    end.

Declare Scope io_scope.
Delimit Scope io_scope with io.
Notation "x <- m ;; k" := (bind m (fun x => k))
  (at level 61, m at next level, right associativity) : io_scope.
Notation "m ;;; k" := (bind m (fun _ => k))
  (at level 61, right associativity) : io_scope.

(** A call of the client library: the event is recorded, then the call
    returns or raises as the engine decides from the trace so far. *)
Definition call {A} (ev : event) (answer : trace -> exn + A) : M A :=
  fun tr => ((tr ++ [ev])%list, answer tr).

Definition outcome (r : option exn) : exn + unit :=
  match r with Some e => inl e | None => inr tt end.

Section Server.

(** The values of a result row. *)
Variable value : Type.

Definition row := list value.

(** The engine as the client library shows it. *)
Record engine := {
  on_connect : connect_args -> trace -> option exn;
  on_cursor : trace -> option exn;
  on_execute : string -> trace -> option exn;
  description : trace -> option (list string);
  on_fetchmany : Z -> trace -> exn + list row;
  on_fetchone : trace -> exn + option row;
  on_cursor_close : trace -> option exn;
  on_conn_close : trace -> option exn }.

(** [pd.DataFrame(rows, columns=columns)] rendered by [tabulate] as a grid:
    outside this program, it returns the table or raises. *)
Variable tabulate : list string -> list row -> exn + string.

(** The configuration read from the environment at start-up. *)
Record config := {
  TRINO_HOST : string;
  TRINO_PORT : Z;
  TRINO_USER : string;
  TRINO_PASSWORD : option string;
  TRINO_USE_HTTPS : bool;
  TRINO_CATALOG : string;
  TRINO_SCHEMA : string }.

Variable cfg : config.
Variable eng : engine.

(** *** format_error_message *)

Definition format_error_message (error : exn) (context : string) : string :=
  let error_msg := exn_msg error in
  let error_type := exn_type error in
  let low := lower error_msg in
  let port := str_of_int (TRINO_PORT cfg) in
  if contains "connection" low || contains "connect" low then
    lines
      [ "‚ùå Connection Error: Cannot connect to Trino server";
        "";
        "Details: " ++ error_msg;
        "";
        "Troubleshooting:";
        "1. Verify Trino server is running:";
        "   curl http://" ++ TRINO_HOST cfg ++ ":" ++ port ++ "/v1/info";
        "";
        "2. Check environment variables:";
        "   - TRINO_HOST=" ++ TRINO_HOST cfg;
        "   - TRINO_PORT=" ++ port;
        "   - TRINO_USER=" ++ TRINO_USER cfg;
        "";
        "3. For remote servers, ensure SSH tunnel is active (if required)";
        "";
        "4. For Docker, verify network configuration:";
        "   - Use 'host.docker.internal' for localhost connections";
        "   - On Linux, add: --add-host=host.docker.internal:host-gateway";
        "   - Check Docker network mode settings";
        "";
        "5. Check firewall rules and network connectivity" ]
  else if contains "authentication" low || contains "unauthorized" low then
    lines
      [ "‚ùå Authentication Error: Failed to authenticate with Trino";
        "";
        "Details: " ++ error_msg;
        "";
        "Troubleshooting:";
        "1. Verify TRINO_USER is correct: " ++ TRINO_USER cfg;
        "2. If using password authentication, check TRINO_PASSWORD is set correctly";
        "3. Verify user has read permissions on catalog: " ++ TRINO_CATALOG cfg;
        "4. Check Trino server authentication configuration" ]
  else if contains "syntax" low || contains "parse" low then
    lines
      [ "‚ùå Query Error: SQL syntax or parsing error";
        "";
        "Details: " ++ error_msg;
        "";
        "Troubleshooting:";
        "1. Check SQL syntax for Trino-specific requirements";
        "2. Verify table/schema/catalog names are correct";
        "3. Ensure proper quoting for identifiers with special characters";
        "4. Check Trino SQL documentation for supported syntax" ]
  else
    lines
      [ "‚ùå Error: " ++ error_type;
        "";
        "Details: " ++ error_msg;
        "";
        "Context: " ++ (if nonempty context then context
                        else "No additional context");
        "";
        "For more help, check:";
        "- Trino server logs";
        "- Network connectivity";
        "- Environment variable configuration" ].

(** *** get_trino_connection *)

(** The host handed to the client. *)
Definition connection_host : string :=
  if negb (TRINO_HOST cfg =? "localhost")%string then TRINO_HOST cfg
  else "host.docker.internal".

Definition connection_args : connect_args :=
  let host := connection_host in
  let auth :=
    match TRINO_PASSWORD cfg with
    | Some pw => if nonempty pw then Some (TRINO_USER cfg, pw) else None
    | None => None
    end in
  let http_scheme := if TRINO_USE_HTTPS cfg then "https" else "http" in
  {| arg_host := host;
     arg_port := TRINO_PORT cfg;
     arg_user := TRINO_USER cfg;
     arg_auth := auth;
     arg_http_scheme := http_scheme;
     arg_catalog := TRINO_CATALOG cfg;
     arg_schema := TRINO_SCHEMA cfg |}.

Definition get_trino_connection : M unit :=
  try_except
    (call (Connect connection_args)
          (fun tr => outcome (on_connect eng connection_args tr)))
    (fun e =>
       raise {| exn_type := "Exception";
                exn_msg := format_error_message e "Connection attempt" |}).

(** *** The cursor *)

Definition cursor_open : M unit :=
  call OpenCursor (fun tr => outcome (on_cursor eng tr)).

Definition cursor_execute (sql : string) : M unit :=
  call (Execute sql) (fun tr => outcome (on_execute eng sql tr)).

Definition cursor_description : M (option (list string)) :=
  fun tr => (tr, inr (description eng tr)).

Definition cursor_fetchmany (size : Z) : M (list row) :=
  call (Fetchmany size) (on_fetchmany eng size).

Definition cursor_close : M unit :=
  call CloseCursor (fun tr => outcome (on_cursor_close eng tr)).

Definition conn_close : M unit :=
  call CloseConn (fun tr => outcome (on_conn_close eng tr)).

Definition lift {A} (r : exn + A) : M A := fun tr => (tr, r).

(** *** format_results *)

Definition truncation_note (limit : Z) : string :=
  " (limited to " ++ str_of_int limit ++ " rows)".

Definition showing (result_count : Z) : string :=
  String newline (String newline "Showing ") ++
  str_of_int result_count ++ " row(s)".

Definition format_results (limit : Z) : M string :=
  try_except
    (d <- cursor_description ;;
     let columns := match d with Some cols => cols | None => [] end in
     match columns with
     | [] => ret "No columns returned"
     | _ =>
         rows <- cursor_fetchmany limit ;;
         match rows with
         | [] => ret "No results returned"
         | _ =>
             table <- lift (tabulate columns rows) ;;
             let result_count := Z.of_nat (List.length rows) in
             let total_msg := showing result_count in
             let total_msg :=
               if result_count =? limit
               then total_msg ++ truncation_note limit
               else total_msg in
             ret (table ++ total_msg)
         end
     end)%io
    (fun e => ret ("Error formatting results: " ++ exn_msg e)).

(** *** The tools *)

Definition policy_error : string :=
  "‚ùå Error: Only read-only queries are allowed (SELECT, SHOW, DESCRIBE, EXPLAIN, WITH)".

Definition blank_lines : string := String newline (String newline "").

Definition execute_query (query : string) : M string :=
  if negb (nonempty (strip query)) then ret "‚ùå Error: Query is required"
  else if negb (validate_query query) then ret policy_error
  else
    try_except
      (get_trino_connection ;;;
       cursor_open ;;;
       cursor_execute query ;;;
       result <- format_results 100 ;;
       cursor_close ;;;
       conn_close ;;;
       ret ("‚úÖ Query executed successfully:" ++ blank_lines ++ result))%io
      (fun e =>
         ret (format_error_message e
                ("Executing query: " ++ take 100 query ++ "..."))).

(** [x.strip() or default] *)
Definition stripped_or (x default : string) : string :=
  if nonempty (strip x) then strip x else default.

Definition full_table_name (table schema catalog : string) : string :=
  let catalog_name := stripped_or catalog (TRINO_CATALOG cfg) in
  let schema_name := stripped_or schema (TRINO_SCHEMA cfg) in
  catalog_name ++ "." ++ schema_name ++ "." ++ table.

(** The limit of [sample_table]: [int(limit) if limit.strip() else 10],
    capped at 100; [None] when [int] raises [ValueError]. *)
Definition sample_limit (limit : string) : option Z :=
  match (if nonempty (strip limit) then int_of_str limit else Some 10) with
  | Some limit_int => Some (if limit_int >? 100 then 100 else limit_int)
  | None => None
  end.

Definition sample_statement (full_table : string) (limit_int : Z) : string :=
  "SELECT * FROM " ++ full_table ++ " LIMIT " ++ str_of_int limit_int.

Definition sample_table (table limit schema catalog : string) : M string :=
  if negb (nonempty (strip table)) then ret "‚ùå Error: Table name is required"
  else
    let full_table := full_table_name table schema catalog in
    match sample_limit limit with
    | None => ret ("‚ùå Error: Invalid limit value: " ++ limit)
    | Some limit_int =>
        try_except
          (get_trino_connection ;;;
           cursor_open ;;;
           cursor_execute (sample_statement full_table limit_int) ;;;
           result <- format_results limit_int ;;
           cursor_close ;;;
           conn_close ;;;
           ret ("‚úÖ Sample from " ++ full_table ++ ":" ++ blank_lines ++ result))%io
          (fun e =>
             ret (format_error_message e ("Sampling table: " ++ full_table)))
    end.

(** *** The catalog tools

    [show_catalogs], [show_schemas], [show_tables], [describe_table] and
    [show_columns] share one body: connect, open a cursor, execute one
    statement, format at most [limit] rows, close the cursor and the
    connection, and return the result under a header; any exception becomes
    the formatted error for the tool's context. *)

Definition run_statement (sql : string) (limit : Z) (header context : string)
  : M string :=
  try_except
    (get_trino_connection ;;;
     cursor_open ;;;
     cursor_execute sql ;;;
     result <- format_results limit ;;
     cursor_close ;;;
     conn_close ;;;
     ret ("‚úÖ " ++ header ++ ":" ++ blank_lines ++ result))%io
    (fun e => ret (format_error_message e context)).

Definition show_catalogs : M string :=
  run_statement "SHOW CATALOGS" 100 "Available catalogs" "Showing catalogs".

Definition show_schemas (catalog : string) : M string :=
  let catalog_name := stripped_or catalog (TRINO_CATALOG cfg) in
  let query := if nonempty (strip catalog)
               then "SHOW SCHEMAS FROM " ++ catalog_name
               else "SHOW SCHEMAS" in
  run_statement query 100 ("Schemas in " ++ catalog_name)
                ("Showing schemas in catalog: " ++ catalog_name).

Definition show_tables (schema catalog : string) : M string :=
  let catalog_name := stripped_or catalog (TRINO_CATALOG cfg) in
  let schema_name := stripped_or schema (TRINO_SCHEMA cfg) in
  let query := "SHOW TABLES FROM " ++ catalog_name ++ "." ++ schema_name in
  run_statement query 100
                ("Tables in " ++ catalog_name ++ "." ++ schema_name)
                ("Showing tables in " ++ catalog_name ++ "." ++ schema_name).

Definition describe_table (table schema catalog : string) : M string :=
  if negb (nonempty (strip table)) then ret "‚ùå Error: Table name is required"
  else
    let full_table := full_table_name table schema catalog in
    run_statement ("DESCRIBE " ++ full_table) 1000
                  ("Structure of " ++ full_table)
                  ("Describing table: " ++ full_table).

Definition show_columns (table schema catalog : string) : M string :=
  if negb (nonempty (strip table)) then ret "‚ùå Error: Table name is required"
  else
    let full_table := full_table_name table schema catalog in
    run_statement ("SHOW COLUMNS FROM " ++ full_table) 1000
                  ("Columns in " ++ full_table)
                  ("Showing columns for: " ++ full_table).

(** *** get_table_stats and test_connection

    These two read a single row with [fetchone] and write a value of that
    row into their report. *)

(** [format(v, ",")] of a value of a row, which raises for a value that
    has no such format, and [str(v)]: outside this program. *)
Variable format_grouped : value -> exn + string.
Variable str_of_value : value -> string.

Definition cursor_fetchone : M (option row) :=
  call Fetchone (on_fetchone eng).

(** [r[0] if r else None]: a missing row and an empty row are both
    falsy. *)
Definition first_value (r : option row) : option value :=
  match r with
  | Some (v :: _) => Some v
  | _ => None
  end.

Definition get_table_stats (table schema catalog : string) : M string :=
  if negb (nonempty (strip table)) then ret "‚ùå Error: Table name is required"
  else
    let full_table := full_table_name table schema catalog in
    try_except
      (get_trino_connection ;;;
       cursor_open ;;;
       cursor_execute ("SELECT COUNT(*) as row_count FROM " ++ full_table) ;;;
       count_result <- cursor_fetchone ;;
       let row_count := first_value count_result in
       cursor_execute ("SHOW STATS FOR " ++ full_table) ;;;
       stats_result <- format_results 1000 ;;
       cursor_close ;;;
       conn_close ;;;
       total <- lift (match row_count with
                      | Some v => format_grouped v
                      | None => inr "0"
                      end) ;;
       ret (lines [ "‚úÖ Statistics for " ++ full_table ++ ":";
                    "";
                    "üìä Total Rows: " ++ total;
                    "";
                    "üìà Column Statistics:";
                    stats_result ]))%io
      (fun e =>
         ret (format_error_message e ("Getting stats for: " ++ full_table))).

Definition test_connection : M string :=
  try_except
    (get_trino_connection ;;;
     cursor_open ;;;
     version <- try_except
                  (cursor_execute "SELECT version()" ;;;
                   version_result <- cursor_fetchone ;;
                   ret (match first_value version_result with
                        | Some v => str_of_value v
                        | None => "Unknown"
                        end))
                  (fun _ => ret "Unable to retrieve version") ;;
     cursor_execute "SELECT 1 as test" ;;;
     cursor_fetchone ;;;
     cursor_close ;;;
     conn_close ;;;
     ret (lines
            [ "‚úÖ Connection Test Successful!";
              "";
              "üìä Server Information:";
              "- Host: " ++ TRINO_HOST cfg ++ ":" ++ str_of_int (TRINO_PORT cfg);
              "- User: " ++ TRINO_USER cfg;
              "- Catalog: " ++ TRINO_CATALOG cfg;
              "- Schema: " ++ TRINO_SCHEMA cfg;
              "- Version: " ++ version;
              "- Authentication: " ++
                match TRINO_PASSWORD cfg with
                | Some pw => if nonempty pw then "Enabled (BasicAuth)"
                             else "Disabled"
                | None => "Disabled"
                end;
              "- Protocol: " ++ (if TRINO_USE_HTTPS cfg then "HTTPS" else "HTTP");
              "";
              "‚úÖ Test query executed successfully" ]))%io
    (fun e => ret (format_error_message e "Testing connection")).

(** *** The tools as one surface *)

(** A call of one of the tools with its arguments. *)
Inductive invocation :=
| ExecuteQuery (query : string)
| ShowCatalogs
| ShowSchemas (catalog : string)
| ShowTables (schema catalog : string)
| DescribeTable (table schema catalog : string)
| ShowColumns (table schema catalog : string)
| GetTableStats (table schema catalog : string)
| SampleTable (table limit schema catalog : string)
| TestConnection.

(** The tool that an invocation runs. *)
Definition invoke (i : invocation) : M string :=
  match i with
  | ExecuteQuery query => execute_query query
  | ShowCatalogs => show_catalogs
  | ShowSchemas catalog => show_schemas catalog
  | ShowTables schema catalog => show_tables schema catalog
  | DescribeTable table schema catalog =>
      describe_table table schema catalog
  | ShowColumns table schema catalog =>
      show_columns table schema catalog
  | GetTableStats table schema catalog =>
      get_table_stats table schema catalog
  | SampleTable table limit schema catalog =>
      sample_table table limit schema catalog
  | TestConnection => test_connection
  end.

(** *** Start-up

    The checks of the main block before the server is run: an empty host or
    user ends the process with status 1; the connection probe is logged and
    never ends it. *)

Inductive startup_result := Exit (status : Z) | Run.

Definition startup : M startup_result :=
  if negb (nonempty (TRINO_HOST cfg)) then ret (Exit 1)
  else if negb (nonempty (TRINO_USER cfg)) then ret (Exit 1)
  else
    try_except
      (get_trino_connection ;;;
       conn_close ;;;
       ret Run)%io
      (fun _ => ret Run).

End Server.

Arguments on_connect {value}.
Arguments on_cursor {value}.
Arguments on_execute {value}.
Arguments description {value}.
Arguments on_fetchmany {value}.
Arguments on_fetchone {value}.
Arguments on_cursor_close {value}.
Arguments on_conn_close {value}.
Arguments get_trino_connection {value}.
Arguments format_results {value}.
Arguments execute_query {value}.
Arguments sample_table {value}.
Arguments run_statement {value}.
Arguments show_catalogs {value}.
Arguments show_schemas {value}.
Arguments show_tables {value}.
Arguments describe_table {value}.
Arguments show_columns {value}.
Arguments startup {value}.
Arguments invoke {value}.
Arguments get_table_stats {value}.
Arguments test_connection {value}.

(** ** The configuration from the environment

    [os.environ.get(key, default)] and the module-level assignments that
    read the settings; [None] stands for the [ValueError] of a port that is
    not an integer. *)

Definition environ := string -> option string.

Definition getenv (env : environ) (key default : string) : string :=
  match env key with Some v => v | None => default end.

Definition load_config (env : environ) : option config :=
  match int_of_str (getenv env "TRINO_PORT" "8088") with
  | None => None
  | Some port =>
      Some {| TRINO_HOST := getenv env "TRINO_HOST" "host.docker.internal";
              TRINO_PORT := port;
              TRINO_USER := getenv env "TRINO_USER" "trino";
              TRINO_PASSWORD := env "TRINO_PASSWORD";
              TRINO_USE_HTTPS :=
                (lower (getenv env "TRINO_USE_HTTPS" "false") =? "true")%string;
              TRINO_CATALOG := getenv env "TRINO_CATALOG" "tpch";
              TRINO_SCHEMA := getenv env "TRINO_SCHEMA" "tiny" |}
  end.

(** ** A concrete engine for running the tools *)

Module Demo.

Definition cfg : config :=
  {| TRINO_HOST := "localhost"; TRINO_PORT := 8088; TRINO_USER := "trino";
     TRINO_PASSWORD := None; TRINO_USE_HTTPS := false;
     TRINO_CATALOG := "tpch"; TRINO_SCHEMA := "tiny" |}.

(** One column, two rows of integers; every call succeeds. *)
Definition healthy : engine Z :=
  {| on_connect := fun _ _ => None;
     on_cursor := fun _ => None;
     on_execute := fun _ _ => None;
     description := fun _ => Some ["a"];
     on_fetchmany := fun _ _ => inr [[1]; [2]];
     on_fetchone := fun _ => inr (Some [1500]);
     on_cursor_close := fun _ => None;
     on_conn_close := fun _ => None |}.

(** The engine refuses every statement, as for a missing table. *)
Definition refusing : engine Z :=
  {| on_connect := fun _ _ => None;
     on_cursor := fun _ => None;
     on_execute := fun _ _ =>
       Some {| exn_type := "TrinoUserError";
               exn_msg := "TABLE_NOT_FOUND: Table 'tpch.tiny.missing' does not exist" |};
     description := fun _ => None;
     on_fetchmany := fun _ _ => inr [];
     on_fetchone := fun _ => inr None;
     on_cursor_close := fun _ => None;
     on_conn_close := fun _ => None |}.

Definition grid : list string -> list (list Z) -> exn + string :=
  fun _ _ => inr "+---+".

Definition args : connect_args := connection_args cfg.

End Demo.

(** Further engines and an environment for running the tools. *)
Module Outage.

(** No server answers: the connect call raises. *)
Definition unreachable : engine Z :=
  {| on_connect := fun _ _ =>
       Some {| exn_type := "OSError";
               exn_msg := "[Errno 111] refused by peer" |};
     on_cursor := fun _ => None;
     on_execute := fun _ _ => None;
     description := fun _ => None;
     on_fetchmany := fun _ _ => inr [];
     on_fetchone := fun _ => inr None;
     on_cursor_close := fun _ => None;
     on_conn_close := fun _ => None |}.

(** The statement succeeds and yields a column and no row. *)
Definition no_rows : engine Z :=
  {| on_connect := fun _ _ => None;
     on_cursor := fun _ => None;
     on_execute := fun _ _ => None;
     description := fun _ => Some ["a"];
     on_fetchmany := fun _ _ => inr [];
     on_fetchone := fun _ => inr None;
     on_cursor_close := fun _ => None;
     on_conn_close := fun _ => None |}.

(** A limit text of [n] digits. *)
Definition long_limit (n : nat) : string :=
  string_of_list_ascii (repeat "1"%char n).

(** The version query is refused, every other call succeeds. *)
Definition no_version : engine Z :=
  {| on_connect := fun _ _ => None;
     on_cursor := fun _ => None;
     on_execute := fun sql _ =>
       if (sql =? "SELECT version()")%string
       then Some {| exn_type := "TrinoUserError";
                    exn_msg := "FUNCTION_NOT_FOUND: version" |}
       else None;
     description := fun _ => Some ["test"];
     on_fetchmany := fun _ _ => inr [[1]];
     on_fetchone := fun _ => inr (Some [1]);
     on_cursor_close := fun _ => None;
     on_conn_close := fun _ => None |}.

(** Only the user is set, to the empty text. *)
Definition empty_user : environ :=
  fun key => if (key =? "TRINO_USER")%string then Some "" else None.

(** A port and the HTTPS flag are set. *)
Definition secure : environ :=
  fun key =>
    if (key =? "TRINO_PORT")%string then Some "8443"
    else if (key =? "TRINO_USE_HTTPS")%string then Some "True"
    else None.

(** [format(n, ",")] and [str(n)] for rows of integers. *)
Fixpoint commas (rev_digits : list ascii) (k : nat) : list ascii :=
  match rev_digits with
  | [] => []
  | d :: t =>
      match k with
      | O => "," :: d :: commas t 2
      | S k' => d :: commas t k'
      end
  end%char.

Definition grouped (n : Z) : exn + string :=
  let digits := list_ascii_of_string (str_of_int (Z.abs n)) in
  let body := string_of_list_ascii (rev (commas (rev digits) 3)) in
  inr (if n <? 0 then String "-" body else body).

Definition shown (n : Z) : string := str_of_int n.

End Outage.


(** ** Comments as the specification describes them

    Follows the spec's words, for comparison with [strip_comments]: a line
    comment runs from [--] to the end of the line, a block comment from
    [/*] to the first [*/] after it, possibly over several lines.  The text
    is read once from left to right, so a marker inside a comment of the
    other kind is part of that comment. *)

Module Spec.

Inductive lex_state :=
| Code             (* outside of comments *)
| LineComment      (* after [--], up to the end of the line *)
| BlockOpen        (* the star of [/*] is next *)
| BlockComment     (* in a block comment *)
| BlockClose.      (* the slash of [*/] is next *)

(** The text outside of comments. *)
Fixpoint code_text (st : lex_state) (s : string) : string :=
  match s with
  | EmptyString => EmptyString
  | String c t =>
      match st with
      | Code =>
          if Ascii.eqb c "-" && startswith "-" t then code_text LineComment t
          else if Ascii.eqb c "/" && startswith "*" t &&
                  match t with
                  | String _ t' => contains "*/" t'
                  | EmptyString => false
                  end
               then code_text BlockOpen t
               else String c (code_text Code t)
      | LineComment =>
          if Ascii.eqb c newline then String c (code_text Code t)
          else code_text LineComment t
      | BlockOpen => code_text BlockComment t
      | BlockComment =>
          if Ascii.eqb c "*" && startswith "/" t then code_text BlockClose t
          else code_text BlockComment t
      | BlockClose => code_text Code t
      end
  end.

Definition outside_comments (query : string) : string := code_text Code query.

(** The normalized query of the spec: the text outside of comments, with
    runs of white space collapsed to one space, trimmed and upper-cased. *)
Definition normalized (query : string) : string :=
  upper (strip (normalize_whitespace (outside_comments query))).

End Spec.

(** Two texts that mix the two kinds of comment. *)
Module Samples.

(** An [INSERT] after a block comment that holds a line-comment marker;
    the second line opens with an empty block comment. *)
Definition hidden_insert : string :=
  "/* -- */ INSERT INTO t" ++ String newline "/* */ SELECT 1".

(** A [SELECT] followed by a block comment that holds the forbidden words
    and a line-comment marker. *)
Definition commented_drop : string := "SELECT 1 /* DROP TABLE x -- */".

End Samples.

(** ** Vocabulary of the properties *)

(** The number of connections opened and closed in a trace. *)
Definition opened (tr : trace) : nat :=
  List.length (filter (fun e => match e with Connect _ => true | _ => false end) tr).

Definition closed (tr : trace) : nat :=
  List.length (filter (fun e => match e with CloseConn => true | _ => false end) tr).

Definition forwarded (tr : trace) : list string :=
  flat_map (fun e => match e with Execute sql => [sql] | _ => [] end) tr.

(** What follows the first field in the joined text. *)
Definition after_first (l : list string) : string :=
  match filter nonempty l with
  | [] => ""
  | l' => " " ++ join " " l'
  end.

(** The scan state and the characters before the current position, in the
    text and in its normalized form. *)
Definition in_step (st : scan_state) (prev prev' : option ascii) : Prop :=
  match st with
  | Start => word_before prev = false /\ prev' = None
  | InWord => prev = prev'
  | Gap => word_before prev = false
  end.

(** The first character after leading white space is an opening
    parenthesis. *)
Definition leads_with_paren (s : string) : bool :=
  startswith "(" (drop_while isspace s).

(** The text ends in a dash. *)
Fixpoint ends_with_dash (s : string) : bool :=
  match s with
  | EmptyString => false
  | String c EmptyString => Ascii.eqb c "-"
  | String _ t => ends_with_dash t
  end.

(** The events one run of a tool can add to the trace: the client calls in
    order, stopped by the first call that raises; the rows are fetched only
    when there are columns. *)
Definition run_shapes (a : connect_args) (sql : string) (limit : Z)
  : list trace :=
  [ [Connect a];
    [Connect a; OpenCursor];
    [Connect a; OpenCursor; Execute sql];
    [Connect a; OpenCursor; Execute sql; CloseCursor];
    [Connect a; OpenCursor; Execute sql; CloseCursor; CloseConn];
    [Connect a; OpenCursor; Execute sql; Fetchmany limit; CloseCursor];
    [Connect a; OpenCursor; Execute sql; Fetchmany limit; CloseCursor; CloseConn] ].

(** The sizes asked of [fetchmany]. *)
Definition fetch_sizes (tr : trace) : list Z :=
  flat_map (fun e => match e with Fetchmany n => [n] | _ => [] end) tr.

(** The text starts with the failure mark or with the success mark. *)
Definition marked (out : string) : bool :=
  startswith "‚ùå" out || startswith "‚úÖ" out.

(** The tools that run two statements in one call. *)
Definition two_statements (i : invocation) : bool :=
  match i with
  | GetTableStats _ _ _ | TestConnection => true
  | _ => false
  end.

(** The events a run of [get_table_stats] can add: the count, its row, the
    statistics, their rows, and the two closes, stopped by the first call
    that raises. *)
Definition stats_shapes (a : connect_args) (count stats : string) : list trace :=
  let start := [Connect a; OpenCursor; Execute count; Fetchone; Execute stats] in
  [ [Connect a];
    [Connect a; OpenCursor];
    [Connect a; OpenCursor; Execute count];
    [Connect a; OpenCursor; Execute count; Fetchone];
    start;
    start ++ [CloseCursor];
    start ++ [CloseCursor; CloseConn];
    start ++ [Fetchmany 1000; CloseCursor];
    start ++ [Fetchmany 1000; CloseCursor; CloseConn] ]%list.

(** The events a run of [test_connection] can add: the version query may
    fail at the execute or at the fetch without stopping the run; the test
    query, its row and the two closes follow, stopped by the first of them
    that raises. *)
Definition test_shapes (a : connect_args) : list trace :=
  let version := "SELECT version()" in
  let test := "SELECT 1 as test" in
  let tails := [ [Execute test];
                 [Execute test; Fetchone];
                 [Execute test; Fetchone; CloseCursor];
                 [Execute test; Fetchone; CloseCursor; CloseConn] ] in
  ([ [Connect a]; [Connect a; OpenCursor] ] ++
   map (fun t => [Connect a; OpenCursor; Execute version] ++ t) tails ++
   map (fun t => [Connect a; OpenCursor; Execute version; Fetchone] ++ t) tails)%list.

(** What one invocation adds to the trace: nothing, the events of one
    statement with a row limit of at most 1000, or, for the two tools that
    run two statements, the events of their runs. *)
Definition tool_run (a : connect_args) (i : invocation) (ext : trace) : Prop :=
  ext = [] \/
  (two_statements i = false /\
   exists sql limit, limit <= 1000 /\ In ext (run_shapes a sql limit)) \/
  (two_statements i = true /\
   ((exists count stats, In ext (stats_shapes a count stats)) \/
    In ext (test_shapes a))).


(** * Properties *)

(** ** Facts about the string methods *)

Lemma drop_end_keep (f : ascii -> bool) (c : ascii) (t : string) :
  f c = false -> drop_end f (String c t) = String c (drop_end f t).
Proof.
  intros Hc. cbn. rewrite Hc. destruct (drop_end f t); reflexivity.
Qed.

Lemma drop_while_head (f : ascii -> bool) (s : string) :
  match drop_while f s with
  | EmptyString => True
  | String c _ => f c = false
  end.
Proof.
  induction s as [|c t IH]; cbn; [exact I|].
  destruct (f c) eqn:E; [exact IH | exact E].
Qed.

Lemma drop_while_all (f : ascii -> bool) (s : string) :
  drop_while f s = EmptyString <-> all_chars f s = true.
Proof.
  induction s as [|c t IH]; cbn; [tauto|].
  destruct (f c); cbn; [exact IH|]. split; discriminate.
Qed.

Lemma strip_blank (s : string) :
  nonempty (strip s) = false -> all_chars isspace s = true.
Proof.
  unfold strip, lstrip, rstrip. intros H.
  apply drop_while_all.
  pose proof (drop_while_head isspace s) as Hh.
  destruct (drop_while isspace s) as [|c t]; [reflexivity|].
  rewrite (drop_end_keep _ _ _ Hh) in H. discriminate.
Qed.

Lemma drop_while_all_sub (f g : ascii -> bool) (s : string) :
  all_chars g s = true -> all_chars g (drop_while f s) = true.
Proof.
  induction s as [|c t IH]; cbn; [reflexivity|].
  intros H. apply andb_true_iff in H as [Hc Ht].
  destruct (f c); [auto|]. cbn. rewrite Hc, Ht. reflexivity.
Qed.

Lemma space_not_c_space (c : ascii) :
  isspace c = true -> is_c_space c = false ->
  isdigit c = false /\ Ascii.eqb c "-" = false /\ Ascii.eqb c "+" = false.
Proof.
  destruct c as [[] [] [] [] [] [] [] []]; cbn; intros; try discriminate;
    repeat split.
Qed.

(** [int] raises on a blank text. *)
Lemma int_of_str_blank (s : string) :
  nonempty (strip s) = false -> int_of_str s = None.
Proof.
  intros H. apply strip_blank in H.
  apply (drop_while_all_sub is_c_space) in H.
  pose proof (drop_while_head is_c_space s) as Hh.
  unfold int_of_str.
  destruct (drop_while is_c_space s) as [|c t]; [reflexivity|].
  rewrite (drop_end_keep _ _ _ Hh). cbn in H.
  apply andb_true_iff in H as [Hc _].
  destruct (space_not_c_space c Hc Hh) as (Hd & Hm & Hp).
  rewrite Hm, Hp. unfold read_digits.
  destruct (count_digits _ >? int_max_str_digits); [reflexivity|].
  cbn [parse_digits]. rewrite Hd, andb_false_r. reflexivity.
Qed.

Lemma int_of_str_nonblank (s : string) (n : Z) :
  int_of_str s = Some n -> nonempty (strip s) = true.
Proof.
  intros H. destruct (nonempty (strip s)) eqn:E; [reflexivity|].
  rewrite (int_of_str_blank s E) in H. discriminate.
Qed.

(** ** Effects of the tools *)

Section Effects.

Variable value : Type.
Variable tabulate : list string -> list (list value) -> exn + string.
Variable cfg : config.
Variable eng : engine value.

(** C9: the host handed to the client is the configured host, except that
    the configured host "localhost" is replaced by "host.docker.internal";
    the connection is made with that host. *)
Theorem connection_host_rewrites_localhost :
  connection_host cfg =
    (if (TRINO_HOST cfg =? "localhost")%string then "host.docker.internal"
     else TRINO_HOST cfg) /\
  arg_host (connection_args cfg) = connection_host cfg /\
  forall tr, fst (get_trino_connection cfg eng tr) =
             (tr ++ [Connect (connection_args cfg)])%list.
Proof.
  unfold connection_host. split; [|split].
  - destruct (TRINO_HOST cfg =? "localhost")%string; reflexivity.
  - reflexivity.
  - intros tr. unfold get_trino_connection, try_except, call, outcome.
    destruct (on_connect eng (connection_args cfg) tr); reflexivity.
Qed.

(** C8, amended: the formatter answers "No columns returned" for an empty
    column list and "No results returned" for columns with no fetched row,
    whatever the limit is.  For at least one fetched row that the grid
    renders, the output is the grid, a blank line and the count line, and
    the note of the limit follows exactly when the count equals the limit;
    when the grid raises, the output is the formatting-error text. *)
Theorem format_results_cases (limit : Z) (tr : trace) :
  (description eng tr = None \/ description eng tr = Some [] ->
     format_results tabulate eng limit tr = (tr, inr "No columns returned")) /\
  (forall c cols, description eng tr = Some (c :: cols) ->
     on_fetchmany eng limit tr = inr [] ->
     format_results tabulate eng limit tr =
       ((tr ++ [Fetchmany limit])%list, inr "No results returned")) /\
  (forall c cols r rows,
     description eng tr = Some (c :: cols) ->
     on_fetchmany eng limit tr = inr (r :: rows) ->
     let count := Z.of_nat (List.length (r :: rows)) in
     let line := String "010" (String "010" "Showing ") ++
                 str_of_int count ++ " row(s)" in
     (forall table, tabulate (c :: cols) (r :: rows) = inr table ->
        (count = limit ->
           snd (format_results tabulate eng limit tr) =
             inr (table ++ line ++ " (limited to " ++ str_of_int limit ++ " rows)")) /\
        (count <> limit ->
           snd (format_results tabulate eng limit tr) = inr (table ++ line))) /\
     (forall e, tabulate (c :: cols) (r :: rows) = inl e ->
        snd (format_results tabulate eng limit tr) =
          inr ("Error formatting results: " ++ exn_msg e))).
Proof.
  unfold format_results, try_except, bind, cursor_description,
    cursor_fetchmany, call, lift, ret.
  split; [|split].
  - intros [Hd | Hd]; rewrite Hd; reflexivity.
  - intros c cols Hd Hf. rewrite Hd, Hf. reflexivity.
  - intros c cols r rows Hd Hf. rewrite Hd, Hf.
    set (count := Z.of_nat (List.length (r :: rows))).
    split.
    + intros table Ht. rewrite Ht. split; intros Hc; cbn [snd].
      * apply Z.eqb_eq in Hc. rewrite Hc. reflexivity.
      * apply Z.eqb_neq in Hc. rewrite Hc. reflexivity.
    + intros e Ht. rewrite Ht. reflexivity.
Qed.

(** Every call only extends the trace; a tool that returns without a call
    leaves it as it is. *)
Lemma execute_query_rejected (query : string) (tr : trace) :
  validate_query query = false ->
  execute_query tabulate cfg eng query tr =
    (tr, inr (if nonempty (strip query) then policy_error
              else "‚ùå Error: Query is required")).
Proof.
  intros Hv. unfold execute_query. rewrite Hv.
  destruct (nonempty (strip query)); reflexivity.
Qed.

(** C5, amended: for a query the gate rejects, [execute_query] returns the
    fixed policy message when the query is not blank and the fixed
    "Query is required" message when it is; either way the trace is
    unchanged: no connection is opened and nothing is forwarded. *)
Theorem rejected_query_never_reaches_engine (query : string) (tr : trace) :
  validate_query query = false ->
  let r := execute_query tabulate cfg eng query tr in
  fst r = tr /\
  opened (fst r) = opened tr /\
  forwarded (fst r) = forwarded tr /\
  (nonempty (strip query) = true -> snd r = inr policy_error) /\
  (nonempty (strip query) = false ->
     snd r = inr "‚ùå Error: Query is required").
Proof.
  intros Hv r. subst r. rewrite (execute_query_rejected query tr Hv).
  cbn [fst snd]. repeat split; intros ->; reflexivity.
Qed.

(** *** sample_table *)

Lemma sample_limit_parsed (limit : string) (n : Z) :
  int_of_str limit = Some n ->
  sample_limit limit = Some (if n >? 100 then 100 else n).
Proof.
  intros H. unfold sample_limit.
  rewrite (int_of_str_nonblank limit n H), H. reflexivity.
Qed.

Lemma sample_limit_blank (limit : string) :
  nonempty (strip limit) = false -> sample_limit limit = Some 10.
Proof. intros H. unfold sample_limit. rewrite H. reflexivity. Qed.

Lemma sample_limit_invalid (limit : string) :
  nonempty (strip limit) = true -> int_of_str limit = None ->
  sample_limit limit = None.
Proof. intros H1 H2. unfold sample_limit. rewrite H1, H2. reflexivity. Qed.

Ltac case_calls :=
  repeat match goal with
         | |- context [match ?x with _ => _ end] =>
             lazymatch x with
             | context [match _ with _ => _ end] => fail
             | _ => destruct x eqn:?
             end
         end.

(** With a usable limit, a connection and a cursor, the statement sent to
    the engine is the [SELECT] with that limit. *)
Lemma sample_table_forwards (table limit schema catalog : string) (n : Z)
      (tr : trace) :
  nonempty (strip table) = true ->
  sample_limit limit = Some n ->
  on_connect eng (connection_args cfg) tr = None ->
  on_cursor eng (tr ++ [Connect (connection_args cfg)])%list = None ->
  exists rest,
    fst (sample_table tabulate cfg eng table limit schema catalog tr) =
      (tr ++ [Connect (connection_args cfg); OpenCursor;
              Execute (sample_statement
                         (full_table_name cfg table schema catalog) n)]
          ++ rest)%list.
Proof.
  intros Ht Hl Hc Hk. unfold sample_table. rewrite Ht, Hl. cbn [negb].
  unfold try_except, bind, get_trino_connection, cursor_open, cursor_execute,
    format_results, cursor_description, cursor_fetchmany, cursor_close,
    conn_close, lift, call, try_except, bind, ret, raise.
  rewrite Hc. cbn [outcome]. rewrite Hk. cbn [outcome].
  case_calls; cbn [fst];
    rewrite <- ?app_assoc; cbn [app];
    match goal with
    | |- exists rest, (tr ++ _ :: _ :: _ :: ?r)%list = _ => exists r
    end; reflexivity.
Qed.

(** C7, amended: for a table name that is not blank, a limit that parses
    to more than 100 gives the limit 100, a limit that is not blank and
    does not parse gives the invalid-limit message with no call to the
    engine, a blank limit gives 10; the limit so obtained is the one in the
    statement sent to the engine. *)
Theorem sample_table_limit (table limit schema catalog : string) (tr : trace) :
  nonempty (strip table) = true ->
  (forall n, int_of_str limit = Some n -> 100 < n ->
     sample_limit limit = Some 100) /\
  (nonempty (strip limit) = true -> int_of_str limit = None ->
     sample_table tabulate cfg eng table limit schema catalog tr =
       (tr, inr ("‚ùå Error: Invalid limit value: " ++ limit))) /\
  (nonempty (strip limit) = false -> sample_limit limit = Some 10) /\
  (forall n, sample_limit limit = Some n ->
     on_connect eng (connection_args cfg) tr = None ->
     on_cursor eng (tr ++ [Connect (connection_args cfg)])%list = None ->
     exists rest,
       fst (sample_table tabulate cfg eng table limit schema catalog tr) =
         (tr ++ [Connect (connection_args cfg); OpenCursor;
                 Execute (sample_statement
                            (full_table_name cfg table schema catalog) n)]
             ++ rest)%list).
Proof.
  intros Ht. repeat split.
  - intros n Hn Hgt. rewrite (sample_limit_parsed limit n Hn).
    assert ((n >? 100) = true) as -> by lia. reflexivity.
  - intros Hb Hn. unfold sample_table.
    rewrite Ht, (sample_limit_invalid limit Hb Hn). reflexivity.
  - apply sample_limit_blank.
  - intros n Hl Hc Hk. now apply sample_table_forwards.
Qed.

(** C10: a limit that parses to an integer of at most 100, zero and
    negative ones included, is taken as it is, and the statement sent to
    the engine ends in [LIMIT] and that integer. *)
Theorem sample_table_no_lower_bound
        (table limit schema catalog : string) (n : Z) (tr : trace) :
  nonempty (strip table) = true ->
  int_of_str limit = Some n ->
  n <= 100 ->
  sample_limit limit = Some n /\
  (on_connect eng (connection_args cfg) tr = None ->
   on_cursor eng (tr ++ [Connect (connection_args cfg)])%list = None ->
   exists rest,
     fst (sample_table tabulate cfg eng table limit schema catalog tr) =
       (tr ++ [Connect (connection_args cfg); OpenCursor;
               Execute ("SELECT * FROM " ++
                        full_table_name cfg table schema catalog ++
                        " LIMIT " ++ str_of_int n)]
           ++ rest)%list).
Proof.
  intros Ht Hn Hle.
  assert (sample_limit limit = Some n) as Hl.
  { rewrite (sample_limit_parsed limit n Hn).
    assert ((n >? 100) = false) as -> by lia. reflexivity. }
  split; [exact Hl|].
  intros Hc Hk. now apply sample_table_forwards.
Qed.

(** *** Closing the connection *)

(** When every call succeeds the connection opened by [execute_query] is
    closed before the tool returns. *)
Lemma execute_query_closes_on_success (query : string) (tr : trace) :
  nonempty (strip query) = true ->
  validate_query query = true ->
  (forall a t, on_connect eng a t = None) ->
  (forall t, on_cursor eng t = None) ->
  (forall q t, on_execute eng q t = None) ->
  (forall t, on_cursor_close eng t = None) ->
  (forall t, on_conn_close eng t = None) ->
  exists mid,
    fst (execute_query tabulate cfg eng query tr) =
      (tr ++ Connect (connection_args cfg) :: mid ++ [CloseConn])%list /\
    closed mid = O.
Proof.
  intros Hq Hv Hc Hk He Hcc Hnc. unfold execute_query. rewrite Hq, Hv.
  cbn [negb].
  unfold try_except, bind, get_trino_connection, cursor_open, cursor_execute,
    format_results, cursor_description, cursor_fetchmany, cursor_close,
    conn_close, lift, call, try_except, bind, ret, raise.
  rewrite Hc. cbn [outcome]. rewrite Hk. cbn [outcome].
  rewrite He. cbn [outcome].
  case_calls;
    try match goal with
        | H : context [on_cursor_close _ _] |- _ => rewrite Hcc in H; discriminate
        | H : context [on_conn_close _ _] |- _ => rewrite Hnc in H; discriminate
        end;
    cbn [fst]; rewrite <- ?app_assoc; cbn [app];
    match goal with
    | |- exists mid, (tr ++ _ :: ?l)%list = _ /\ _ =>
        exists (removelast l)
    end; cbn; split; reflexivity.
Qed.

(** When the engine refuses the statement the tool returns the formatted
    error and the connection it opened stays open. *)
Lemma execute_query_failure_leaves_open (query : string) (tr : trace) (e : exn) :
  nonempty (strip query) = true ->
  validate_query query = true ->
  on_connect eng (connection_args cfg) tr = None ->
  on_cursor eng (tr ++ [Connect (connection_args cfg)])%list = None ->
  on_execute eng query
    (tr ++ [Connect (connection_args cfg)] ++ [OpenCursor])%list = Some e ->
  execute_query tabulate cfg eng query tr =
    ((tr ++ [Connect (connection_args cfg); OpenCursor; Execute query])%list,
     inr (format_error_message cfg e
            ("Executing query: " ++ take 100 query ++ "..."))).
Proof.
  intros Hq Hv Hc Hk He. unfold execute_query. rewrite Hq, Hv. cbn [negb].
  unfold try_except, bind, get_trino_connection, cursor_open, cursor_execute,
    call, try_except, bind, ret, raise.
  rewrite Hc. cbn [outcome]. rewrite Hk. cbn [outcome].
  rewrite <- app_assoc. rewrite He. cbn [outcome].
  rewrite <- !app_assoc. reflexivity.
Qed.

End Effects.

(** C5 as stated fails on the blank query: the gate rejects it, and the
    tool answers with the "Query is required" message instead of the policy
    message. *)
Lemma blank_query_gets_other_message :
  validate_query "" = false /\
  snd (execute_query Demo.grid Demo.cfg Demo.healthy "" []) <> inr policy_error.
Proof. split; [reflexivity | discriminate]. Qed.

Lemma rejected_query_never_reaches_engine_witness :
  let r := execute_query Demo.grid Demo.cfg Demo.healthy "DROP TABLE foo" [] in
  fst r = [] /\
  opened (fst r) = opened [] /\
  forwarded (fst r) = forwarded [] /\
  (nonempty (strip "DROP TABLE foo") = true -> snd r = inr policy_error) /\
  (nonempty (strip "DROP TABLE foo") = false ->
     snd r = inr "‚ùå Error: Query is required").
Proof.
  apply (rejected_query_never_reaches_engine Z Demo.grid Demo.cfg Demo.healthy
           "DROP TABLE foo" []).
  reflexivity.
Defined.

Lemma format_results_cases_witness :
  snd (format_results Demo.grid Demo.healthy 2 []) =
    inr ("+---+" ++ String "010" (String "010" "Showing 2 row(s) (limited to 2 rows)")) /\
  snd (format_results Demo.grid Demo.healthy 100 []) =
    inr ("+---+" ++ String "010" (String "010" "Showing 2 row(s)")).
Proof.
  pose proof (format_results_cases Z Demo.grid Demo.healthy 2 []) as (_ & _ & H2).
  pose proof (format_results_cases Z Demo.grid Demo.healthy 100 []) as (_ & _ & H100).
  destruct (H2 "a" [] [1] [[2]] eq_refl eq_refl) as [H2' _].
  destruct (H100 "a" [] [1] [[2]] eq_refl eq_refl) as [H100' _].
  split.
  - apply (H2' "+---+" eq_refl). reflexivity.
  - apply (H100' "+---+" eq_refl). discriminate.
Defined.

(** C8 as stated fails for the limit 0, which [sample_table] passes on for
    the limit text "0": no row is fetched, the count equals the limit, and
    the output is the "No results returned" text with no note of the
    limit. *)
Lemma zero_limit_has_no_note :
  sample_limit "0" = Some 0 /\
  on_fetchmany Outage.no_rows 0 [] = inr [] /\
  Z.of_nat (List.length (@nil (list Z))) = 0 /\
  snd (format_results Demo.grid Outage.no_rows 0 []) =
    inr "No results returned" /\
  contains "limited to" "No results returned" = false.
Proof. repeat split. Qed.

(** C7 as stated fails for a table name that is not empty but blank: the
    tool answers "Table name is required" whatever the limit is. *)
Lemma blank_table_name_rejected_first :
  nonempty " " = true /\
  sample_table Demo.grid Demo.cfg Demo.healthy " " "abc" "" "" [] =
    ([], inr "‚ùå Error: Table name is required") /\
  sample_table Demo.grid Demo.cfg Demo.healthy " " "abc" "" "" [] <>
    ([], inr ("‚ùå Error: Invalid limit value: " ++ "abc")).
Proof. repeat split. discriminate. Qed.

Lemma sample_table_limit_witness :
  sample_limit "500" = Some 100 /\
  sample_table Demo.grid Demo.cfg Demo.healthy "orders" "abc" "" "" [] =
    ([], inr "‚ùå Error: Invalid limit value: abc") /\
  sample_limit "  " = Some 10 /\
  exists rest,
    fst (sample_table Demo.grid Demo.cfg Demo.healthy "orders" "500" "" "" []) =
      ([Connect Demo.args; OpenCursor;
        Execute "SELECT * FROM tpch.tiny.orders LIMIT 100"] ++ rest)%list.
Proof.
  pose proof (sample_table_limit Z Demo.grid Demo.cfg Demo.healthy
                "orders" "500" "" "" [] eq_refl) as (H500 & _ & _ & Hrun).
  pose proof (sample_table_limit Z Demo.grid Demo.cfg Demo.healthy
                "orders" "abc" "" "" [] eq_refl) as (_ & Habc & _ & _).
  pose proof (sample_table_limit Z Demo.grid Demo.cfg Demo.healthy
                "orders" "  " "" "" [] eq_refl) as (_ & _ & Hblank & _).
  split; [|split; [|split]].
  - apply (H500 500); [reflexivity | lia].
  - apply Habc; reflexivity.
  - apply Hblank; reflexivity.
  - apply (Hrun 100); reflexivity.
Defined.

Lemma sample_table_no_lower_bound_witness :
  sample_limit "-5" = Some (-5) /\
  exists rest,
    fst (sample_table Demo.grid Demo.cfg Demo.healthy "orders" "-5" "" "" []) =
      ([Connect Demo.args; OpenCursor;
        Execute "SELECT * FROM tpch.tiny.orders LIMIT -5"] ++ rest)%list.
Proof.
  pose proof (sample_table_no_lower_bound Z Demo.grid Demo.cfg Demo.healthy
                "orders" "-5" "" "" (-5) [] eq_refl eq_refl) as H.
  destruct H as [Hl Hrun]; [lia|].
  split; [exact Hl|]. apply Hrun; reflexivity.
Defined.

(** C6: the engine refuses an allowed statement; [execute_query] and
    [sample_table] return the formatted error with the connection they
    opened still open: one connection opened, none closed. *)
Theorem failure_path_leaves_connection_open :
  let q := "SELECT * FROM missing" in
  let r := execute_query Demo.grid Demo.cfg Demo.refusing q [] in
  let r' := sample_table Demo.grid Demo.cfg Demo.refusing "missing" "10" "" "" [] in
  validate_query q = true /\
  fst r = [Connect Demo.args; OpenCursor; Execute q] /\
  opened (fst r) = 1%nat /\ closed (fst r) = 0%nat /\
  fst r' = [Connect Demo.args; OpenCursor;
            Execute "SELECT * FROM tpch.tiny.missing LIMIT 10"] /\
  opened (fst r') = 1%nat /\ closed (fst r') = 0%nat.
Proof. cbv zeta. repeat split. Qed.

(** On the healthy engine the same calls close the connection. *)
Example success_path_closes_connection :
  let r := execute_query Demo.grid Demo.cfg Demo.healthy "SELECT 1" [] in
  fst r = [Connect Demo.args; OpenCursor; Execute "SELECT 1"; Fetchmany 100;
           CloseCursor; CloseConn] /\
  opened (fst r) = 1%nat /\ closed (fst r) = 1%nat.
Proof. cbv zeta. repeat split. Qed.

(** ** The query gate on concrete texts *)

Example spec_hidden_insert :
  Spec.outside_comments Samples.hidden_insert =
    " INSERT INTO t" ++ String newline " SELECT 1".
Proof. reflexivity. Qed.

Example gate_hidden_insert :
  strip_line_comments false Samples.hidden_insert =
    "/* " ++ String newline "/* */ SELECT 1" /\
  strip_comments Samples.hidden_insert = " SELECT 1" /\
  query_upper Samples.hidden_insert = "SELECT 1" /\
  validate_query Samples.hidden_insert = true.
Proof. repeat split. Qed.

Example gate_commented_drop :
  Spec.outside_comments Samples.commented_drop = "SELECT 1 " /\
  strip_comments Samples.commented_drop = "SELECT 1 /* DROP TABLE x " /\
  validate_query Samples.commented_drop = false.
Proof. repeat split. Qed.

(** ** The query gate in general *)

Lemma startswith_cons (a b : ascii) (p s : string) :
  startswith (String a p) (String b s) = Ascii.eqb a b && startswith p s.
Proof. reflexivity. Qed.

Lemma startswith_drop_end (kw s : string) :
  all_chars (fun c => negb (isspace c)) kw = true ->
  startswith kw s = true ->
  startswith kw (drop_end isspace s) = true.
Proof.
  revert s. induction kw as [|a kw IH]; intros s Hk Hs; [reflexivity|].
  destruct s as [|b s]; [discriminate|].
  cbn in Hk, Hs. apply andb_true_iff in Hk as [Ha Hk].
  apply andb_true_iff in Hs as [Hab Hs].
  apply Ascii.eqb_eq in Hab. subst b.
  rewrite drop_end_keep by (now apply negb_true_iff).
  cbn. rewrite Ascii.eqb_refl. cbn. now apply IH.
Qed.

(** Trimming keeps a prefix that has no white space in it. *)
Lemma startswith_strip (kw s : string) :
  nonempty kw = true ->
  all_chars (fun c => negb (isspace c)) kw = true ->
  startswith kw s = true ->
  startswith kw (strip s) = true.
Proof.
  intros Hne Hk Hs. unfold strip, lstrip, rstrip.
  apply startswith_drop_end; [exact Hk|].
  destruct kw as [|a kw]; [discriminate|].
  destruct s as [|b s]; [discriminate|].
  cbn in Hk, Hs |- *.
  apply andb_true_iff in Hk as [Ha _].
  apply andb_true_iff in Hs as [Hab Hs].
  pose proof Hab as Hab'. apply Ascii.eqb_eq in Hab'. subst b.
  apply negb_true_iff in Ha. rewrite Ha. cbn.
  rewrite Hab, Hs. reflexivity.
Qed.

Lemma allowed_starts_shape (kw : string) :
  In kw allowed_starts ->
  nonempty kw = true /\
  all_chars (fun c => negb (isspace c)) kw = true /\
  startswith "(" kw = false.
Proof.
  cbn. intros H.
  repeat (destruct H as [<- | H]; [repeat split|]). contradiction.
Qed.

Lemma startswith_first (kw s : string) :
  nonempty kw = true -> startswith kw s = true ->
  startswith "(" s = startswith "(" kw.
Proof.
  destruct kw as [|a kw]; [discriminate|]. intros _.
  destruct s as [|b s]; [discriminate|]. cbn.
  intros H. apply andb_true_iff in H as [Hab _].
  apply Ascii.eqb_eq in Hab. subst b. reflexivity.
Qed.

(** A text whose normalized form, as the gate computes it, starts with an
    allowed keyword and matches no forbidden pattern is allowed. *)
Theorem allowed_prefix_is_accepted (query keyword : string) :
  In keyword allowed_starts ->
  startswith keyword (query_upper query) = true ->
  matches_forbidden (query_upper query) = false ->
  validate_query query = true.
Proof.
  intros Hin Hs Hf. unfold validate_query. cbv zeta. rewrite Hf.
  destruct (allowed_starts_shape keyword Hin) as (Hne & Hk & Hp).
  pose proof (startswith_strip keyword _ Hne Hk Hs) as Hs'.
  rewrite (startswith_first keyword _ Hne Hs'), Hp.
  assert (starts_allowed (strip (query_upper query)) = true) as ->.
  { apply existsb_exists. exists keyword. split; assumption. }
  reflexivity.
Qed.

Lemma allowed_prefix_is_accepted_witness :
  validate_query "select * from t  /* note */" = true.
Proof.
  apply (allowed_prefix_is_accepted "select * from t  /* note */" "SELECT").
  - cbn. left. reflexivity.
  - reflexivity.
  - reflexivity.
Defined.

(** C1: an [INSERT INTO] that stands outside of the comments of the text is
    not seen by the gate, which allows the text: the first pass removes
    from the [--] inside the first block comment to the end of the line,
    the second pass then takes what is left of that line and the comment of
    the next line for one block comment. *)
Theorem gate_allows_insert_outside_comments :
  let p := [Bound; Lit "INSERT"; Plus Space; Lit "INTO"; Bound] in
  In p forbidden_patterns /\
  search p (upper (Spec.outside_comments Samples.hidden_insert)) = true /\
  query_upper Samples.hidden_insert = "SELECT 1" /\
  validate_query Samples.hidden_insert = true.
Proof. cbv zeta. split; [left; reflexivity | repeat split]. Qed.

(** C4: the line comment of [SELECT 1 -- DROP TABLE x] is removed and the
    text is allowed; the block comment of
    [SELECT 1 /* DROP TABLE x -- */] is not removed, because the first pass
    has cut its closing marker, and the text is rejected for the words of
    its comment. *)
Theorem comment_only_drop_accepted_or_not :
  strip_comments "SELECT 1 -- DROP TABLE x" = "SELECT 1 " /\
  validate_query "SELECT 1 -- DROP TABLE x" = true /\
  Spec.outside_comments Samples.commented_drop = "SELECT 1 " /\
  matches_forbidden (upper (Spec.outside_comments Samples.commented_drop)) = false /\
  query_upper Samples.commented_drop = "SELECT 1 /* DROP TABLE X" /\
  validate_query Samples.commented_drop = false.
Proof. repeat split. Qed.

(** ** White-space normalization and the patterns *)

Lemma append_empty_r (s : string) : s ++ "" = s.
Proof. induction s as [|c s IH]; cbn; [reflexivity | now rewrite IH]. Qed.

Lemma join_first (w : string) (l : list string) :
  nonempty w = true ->
  join " " (filter nonempty (w :: l)) = w ++ after_first l.
Proof.
  intros Hw. cbn [filter]. rewrite Hw. unfold after_first.
  destruct (filter nonempty l) as [|x l']; cbn; [now rewrite append_empty_r|].
  reflexivity.
Qed.

Lemma after_first_cons (w : string) (l : list string) :
  after_first (w :: l) =
    if nonempty w then " " ++ w ++ after_first l else after_first l.
Proof.
  unfold after_first at 1. cbn [filter].
  destruct (nonempty w) eqn:Hw; [|reflexivity].
  pose proof (join_first w l Hw) as H. cbn [filter] in H. rewrite Hw in H.
  rewrite H. reflexivity.
Qed.

Lemma scan_fields (s : string) :
  match fields s with
  | [] => False
  | w :: l =>
      scan InWord s = w ++ after_first l /\
      scan Gap s = (if nonempty w then " " ++ w ++ after_first l
                    else after_first l) /\
      scan Start s = (if nonempty w then w ++ after_first l
                      else join " " (filter nonempty l))
  end.
Proof.
  induction s as [|c t IH]; [repeat split|].
  cbn [fields scan]. destruct (fields t) as [|w l]; [contradiction|].
  destruct IH as (Hin & Hgap & Hstart).
  destruct (isspace c).
  - rewrite after_first_cons. cbn [nonempty append].
    repeat split; try assumption.
    rewrite Hstart. destruct (nonempty w) eqn:Hw.
    + now rewrite join_first.
    + cbn [filter]. now rewrite Hw.
  - cbn [nonempty append]. rewrite Hin. repeat split.
Qed.

(** [' '.join(s.split())] is the one-pass scan from the start state. *)
Lemma normalize_whitespace_scan (s : string) :
  normalize_whitespace s = scan Start s.
Proof.
  unfold normalize_whitespace, split.
  pose proof (scan_fields s) as H.
  destruct (fields s) as [|w l]; [contradiction|].
  destruct H as (_ & _ & ->).
  destruct (nonempty w) eqn:Hw.
  - now apply join_first.
  - cbn [filter]. now rewrite Hw.
Qed.

Lemma match_plus_cons (k : cls) (p : pattern) (prev : option ascii)
      (c : ascii) (t : string) :
  match_here (Plus k :: p) prev (String c t) =
    in_cls k c && (match_here (Plus k :: p) (Some c) t || match_here p (Some c) t).
Proof. reflexivity. Qed.

Lemma match_plus_empty (k : cls) (p : pattern) (prev : option ascii) :
  match_here (Plus k :: p) prev "" = false.
Proof. reflexivity. Qed.

Lemma isword_not_space (c : ascii) : isword c = true -> isspace c = false.
Proof.
  destruct c as [[] [] [] [] [] [] [] []]; cbn; intros; try discriminate;
    reflexivity.
Qed.

Lemma space_not_word (c : ascii) : isspace c = true -> isword c = false.
Proof.
  intros H. destruct (isword c) eqn:E; [|reflexivity].
  apply isword_not_space in E. congruence.
Qed.

Lemma eat_head (w : string) (prev : option ascii) (u : string) r :
  nonempty w = true -> no_space w = true -> eat w prev u = Some r ->
  exists d t, u = String d t /\ isspace d = false.
Proof.
  destruct w as [|a w]; [discriminate|]. intros _ Hn He.
  cbn in Hn. apply andb_true_iff in Hn as [Ha _].
  apply negb_true_iff in Ha.
  destruct u as [|b u]; [discriminate|]. cbn in He.
  destruct (Ascii.eqb a b) eqn:Hab; [|discriminate].
  apply Ascii.eqb_eq in Hab. subst b. now exists a, u.
Qed.

(** A pattern that reads a character other than white space matches only
    where the text has one. *)
Lemma reads_nonspace_head (p : pattern) (prev : option ascii) (u : string) :
  reads_nonspace p = true -> ws_stable p = true ->
  match_here p prev u = true ->
  exists d t, u = String d t /\ isspace d = false.
Proof.
  destruct p as [|[| w | [|] | ws] p]; try discriminate; cbn [reads_nonspace ws_stable].
  - intros Hne Hs Hm. apply andb_true_iff in Hs as [Hw _].
    cbn [match_here] in Hm.
    destruct (eat w prev u) as [r|] eqn:He; [|discriminate].
    exact (eat_head w prev u r Hne Hw He).
  - intros _ _ Hm. destruct u as [|c t]; [discriminate|].
    rewrite match_plus_cons in Hm. apply andb_true_iff in Hm as [Hc _].
    exists c, t. split; [reflexivity|]. now apply isword_not_space.
  - intros Hne Hs Hm. apply andb_true_iff in Hs as [Hw _].
    cbn [match_here] in Hm. apply existsb_exists in Hm as (w & Hin & Hm).
    destruct (eat w prev u) as [r|] eqn:He; [|discriminate].
    rewrite forallb_forall in Hne, Hw.
    exact (eat_head w prev u r (Hne w Hin) (Hw w Hin) He).
Qed.

Lemma starts_nonspace_head (p : pattern) (prev : option ascii) (u : string) :
  starts_nonspace p = true -> ws_stable p = true ->
  match_here p prev u = true ->
  exists d t, u = String d t /\ isspace d = false.
Proof.
  induction p as [|a p IH]; [discriminate|].
  destruct a as [| w | k | ws];
    try (intros Hs Hw Hm; exact (reads_nonspace_head _ prev u Hs Hw Hm)).
  cbn [starts_nonspace ws_stable match_here]. intros Hs Hw Hm.
  apply andb_true_iff in Hm as [_ Hm]. now apply IH.
Qed.

Lemma scan_word (c : ascii) (t : string) :
  isspace c = false -> scan InWord (String c t) = String c (scan InWord t).
Proof. intros H. cbn. now rewrite H. Qed.

Lemma scan_gap_shape (t : string) :
  scan Gap t = "" \/ exists r, scan Gap t = String " " r.
Proof.
  induction t as [|c t IH]; [now left|]. cbn.
  destruct (isspace c); [exact IH|]. right. eauto.
Qed.

Lemma word_after_scan (u : string) :
  word_after (scan InWord u) = word_after u.
Proof.
  destruct u as [|c t]; [reflexivity|]. cbn [scan].
  destruct (isspace c) eqn:Hc; [|reflexivity].
  cbn [word_after]. rewrite (space_not_word c Hc).
  destruct (scan_gap_shape t) as [-> | [r ->]]; reflexivity.
Qed.

Lemma eat_scan (w : string) :
  no_space w = true ->
  forall prev prev' u prev2 u2,
    word_before prev = word_before prev' ->
    eat w prev u = Some (prev2, u2) ->
    exists prev2',
      eat w prev' (scan InWord u) = Some (prev2', scan InWord u2) /\
      word_before prev2 = word_before prev2'.
Proof.
  induction w as [|a w IH]; intros Hn prev prev' u prev2 u2 Hp He.
  - cbn in He. injection He as <- <-. exists prev'. now split.
  - cbn in Hn. apply andb_true_iff in Hn as [Ha Hn].
    apply negb_true_iff in Ha.
    destruct u as [|b u]; [discriminate|]. cbn [eat] in He.
    destruct (Ascii.eqb a b) eqn:Hab; [|discriminate].
    pose proof Hab as Hab'. apply Ascii.eqb_eq in Hab'. subst b.
    rewrite (scan_word a u Ha). cbn [eat]. rewrite Hab.
    exact (IH Hn (Some a) (Some a) u prev2 u2 eq_refl He).
Qed.

(** After [\s+] has read white space up to [t], the rest of the pattern
    matches after the single space that the normalized text has there. *)
Lemma gap_match (p : pattern) :
  reads_nonspace p = true -> ws_stable p = true ->
  (forall u prev prev', word_before prev = word_before prev' ->
     match_here p prev u = true -> match_here p prev' (scan InWord u) = true) ->
  forall t c, isspace c = true ->
    match_here (Plus Space :: p) (Some c) t || match_here p (Some c) t = true ->
    exists r, scan Gap t = String " " r /\ match_here p (Some " "%char) r = true.
Proof.
  intros Hr Hs IHp. induction t as [|d t IHt]; intros c Hc Hm.
  - rewrite match_plus_empty in Hm. cbn [orb] in Hm.
    destruct (reads_nonspace_head p _ _ Hr Hs Hm) as (? & ? & ? & _).
    discriminate.
  - destruct (isspace d) eqn:Hd.
    + assert (match_here p (Some c) (String d t) = false) as Hno.
      { destruct (match_here p (Some c) (String d t)) eqn:E; [|reflexivity].
        destruct (reads_nonspace_head p _ _ Hr Hs E) as (d' & t' & Heq & Hd').
        injection Heq as <- <-. congruence. }
      rewrite Hno, orb_false_r, match_plus_cons in Hm.
      apply andb_true_iff in Hm as [_ Hm].
      cbn [scan]. rewrite Hd. exact (IHt d Hd Hm).
    + rewrite match_plus_cons in Hm. cbn [in_cls] in Hm.
      rewrite Hd in Hm. cbn [andb orb] in Hm.
      cbn [scan]. rewrite Hd. exists (String d (scan InWord t)).
      split; [reflexivity|]. rewrite <- (scan_word d t Hd).
      apply (IHp _ (Some c)); [|exact Hm].
      cbn [word_before]. now rewrite (space_not_word c Hc).
Qed.

(** A match of a stable pattern inside the text is a match in the
    normalized text. *)
Lemma stable_match (p : pattern) :
  ws_stable p = true ->
  forall u prev prev', word_before prev = word_before prev' ->
    match_here p prev u = true -> match_here p prev' (scan InWord u) = true.
Proof.
  induction p as [|a p IH]; [reflexivity|].
  destruct a as [| w | [|] | ws]; cbn [ws_stable]; intros Hs.
  - (* \b *)
    intros u prev prev' Hp Hm. cbn [match_here] in Hm |- *.
    apply andb_true_iff in Hm as [Hb Hm]. apply andb_true_iff. split.
    + unfold at_boundary in *. now rewrite word_after_scan, <- Hp.
    + now apply (IH Hs u prev).
  - (* a literal *)
    apply andb_true_iff in Hs as [Hw Hs].
    intros u prev prev' Hp Hm. cbn [match_here] in Hm |- *.
    destruct (eat w prev u) as [[prev2 u2]|] eqn:He; [|discriminate].
    destruct (eat_scan w Hw prev prev' u prev2 u2 Hp He) as (prev2' & -> & Hp2).
    now apply (IH Hs u2 prev2).
  - (* \s+ *)
    apply andb_true_iff in Hs as [Hr Hs].
    intros u prev prev' _ Hm. destruct u as [|c t]; [discriminate|].
    rewrite match_plus_cons in Hm. apply andb_true_iff in Hm as [Hc Hm].
    cbn [in_cls] in Hc. cbn [scan]. rewrite Hc.
    destruct (gap_match p Hr Hs (IH Hs) t c Hc Hm) as (r & -> & Hm').
    rewrite match_plus_cons, Hm', orb_true_r. reflexivity.
  - (* \w+ *)
    induction u as [|c t IHu]; intros prev prev' _ Hm; [discriminate|].
    rewrite match_plus_cons in Hm. apply andb_true_iff in Hm as [Hc Hm].
    cbn [in_cls] in Hc.
    rewrite (scan_word c t (isword_not_space c Hc)), match_plus_cons.
    cbn [in_cls]. rewrite Hc. cbn [andb].
    apply orb_true_iff in Hm as [Hm | Hm]; apply orb_true_iff.
    + left. exact (IHu (Some c) (Some c) eq_refl Hm).
    + right. exact (IH Hs t (Some c) (Some c) eq_refl Hm).
  - (* an alternation *)
    apply andb_true_iff in Hs as [Hw Hs].
    intros u prev prev' Hp Hm. cbn [match_here] in Hm |- *.
    apply existsb_exists in Hm as (w & Hin & Hm).
    apply existsb_exists. exists w. split; [exact Hin|].
    destruct (eat w prev u) as [[prev2 u2]|] eqn:He; [|discriminate].
    rewrite forallb_forall in Hw.
    destruct (eat_scan w (Hw w Hin) prev prev' u prev2 u2 Hp He)
      as (prev2' & -> & Hp2).
    now apply (IH Hs u2 prev2).
Qed.

Lemma search_from_head (p : pattern) (prev : option ascii) (u : string) :
  match_here p prev u = true -> search_from p prev u = true.
Proof. intros H. destruct u; cbn; rewrite H; reflexivity. Qed.

Lemma search_from_tail (p : pattern) (prev : option ascii) (c : ascii)
      (t : string) :
  search_from p (Some c) t = true -> search_from p prev (String c t) = true.
Proof. intros H. cbn. rewrite H. apply orb_true_r. Qed.

Lemma search_scan (p : pattern) :
  starts_nonspace p = true -> ws_stable p = true ->
  forall u st prev prev', in_step st prev prev' ->
    search_from p prev u = true -> search_from p prev' (scan st u) = true.
Proof.
  intros Hh Hs. induction u as [|c t IH]; intros st prev prev' Hi Hm.
  - cbn in Hm. rewrite orb_false_r in Hm.
    destruct (starts_nonspace_head p _ _ Hh Hs Hm) as (? & ? & ? & _).
    discriminate.
  - cbn [search_from] in Hm. apply orb_true_iff in Hm as [Hm | Hm].
    + (* the match starts here, at a character that is not white space *)
      destruct (starts_nonspace_head p _ _ Hh Hs Hm) as (d & t' & Heq & Hd).
      injection Heq as <- <-.
      assert (forall q, word_before prev = word_before q ->
                match_here p q (String c (scan InWord t)) = true) as Hq.
      { intros q Hpq. rewrite <- (scan_word c t Hd).
        now apply (stable_match p Hs _ prev). }
      cbn [scan]. rewrite Hd. destruct st; cbn [in_step] in Hi.
      * destruct Hi as [Hw ->]. apply search_from_head, Hq.
        now rewrite Hw.
      * subst prev'. apply search_from_head, Hq. reflexivity.
      * apply search_from_tail, search_from_head, Hq. now rewrite Hi.
    + cbn [scan]. destruct (isspace c) eqn:Hc.
      * apply (IH _ (Some c)); [|exact Hm].
        destruct st; cbn [in_step] in Hi |- *.
        -- destruct Hi as [_ ->]. split; [|reflexivity].
           cbn. now apply space_not_word.
        -- cbn. now apply space_not_word.
        -- cbn. now apply space_not_word.
      * pose proof (IH InWord (Some c) (Some c) eq_refl Hm) as H.
        destruct st; repeat apply search_from_tail; exact H.
Qed.

(** A forbidden pattern found in a text is found in its normalized form. *)
Lemma search_normalized (p : pattern) (u : string) :
  starts_nonspace p = true -> ws_stable p = true ->
  search p u = true -> search p (normalize_whitespace u) = true.
Proof.
  intros Hh Hs Hm. rewrite normalize_whitespace_scan. unfold search in *.
  apply (search_scan p Hh Hs u Start None None); [|exact Hm].
  split; reflexivity.
Qed.

Lemma isspace_upper_char (c : ascii) : isspace (upper_char c) = isspace c.
Proof. destruct c as [[] [] [] [] [] [] [] []]; reflexivity. Qed.

Lemma upper_scan (st : scan_state) (s : string) :
  upper (scan st s) = scan st (upper s).
Proof.
  revert st. induction s as [|c t IH]; intros st; [reflexivity|].
  cbn [scan upper]. rewrite isspace_upper_char.
  destruct (isspace c); [apply IH|].
  destruct st; cbn [upper]; rewrite IH; reflexivity.
Qed.

Lemma query_upper_scan (query : string) :
  query_upper query = scan Start (upper (strip_comments query)).
Proof.
  unfold query_upper. now rewrite normalize_whitespace_scan, upper_scan.
Qed.

Lemma forbidden_patterns_stable (p : pattern) :
  In p forbidden_patterns -> starts_nonspace p = true /\ ws_stable p = true.
Proof.
  intros H.
  assert (forallb (fun p => starts_nonspace p && ws_stable p)
                  forbidden_patterns = true) as Hall by reflexivity.
  rewrite forallb_forall in Hall. now apply andb_true_iff, Hall.
Qed.

(** X19: where the text left by the gate's comment stripping holds a forbidden
    pattern, in any letter case and with any white space between the
    tokens, the gate rejects the query. *)
Theorem forbidden_after_stripping_rejected (query : string) (p : pattern) :
  In p forbidden_patterns ->
  search p (upper (strip_comments query)) = true ->
  validate_query query = false.
Proof.
  intros Hin Hm. destruct (forbidden_patterns_stable p Hin) as [Hh Hs].
  unfold validate_query. cbv zeta.
  assert (matches_forbidden (query_upper query) = true) as ->; [|reflexivity].
  apply existsb_exists. exists p. split; [exact Hin|].
  rewrite query_upper_scan, <- normalize_whitespace_scan.
  now apply search_normalized.
Qed.

Lemma forbidden_after_stripping_rejected_witness :
  validate_query
    ("select 1; Insert" ++ String newline "   into t /* x */ values (1)") = false.
Proof.
  apply (forbidden_after_stripping_rejected _
           [Bound; Lit "INSERT"; Plus Space; Lit "INTO"; Bound]).
  - left. reflexivity.
  - reflexivity.
Defined.

(** *** A text that itself starts with a parenthesis *)

Lemma space_not_marker (c : ascii) :
  isspace c = true -> Ascii.eqb c "-" = false /\ Ascii.eqb c "/" = false.
Proof.
  destruct c as [[] [] [] [] [] [] [] []]; cbn; intros; try discriminate;
    split; reflexivity.
Qed.

Lemma leads_with_paren_cases (s : string) :
  leads_with_paren s = true ->
  exists c t, s = String c t /\
    ((isspace c = true /\ leads_with_paren t = true) \/ c = "("%char).
Proof.
  destruct s as [|c t]; [discriminate|]. intros H. exists c, t.
  split; [reflexivity|]. unfold leads_with_paren in *. cbn [drop_while] in H.
  destruct (isspace c); [left; now split|].
  right. rewrite startswith_cons in H. apply andb_true_iff in H as [H _].
  apply Ascii.eqb_eq in H. now subst c.
Qed.

Lemma strip_line_comments_paren (s : string) :
  leads_with_paren s = true ->
  leads_with_paren (strip_line_comments false s) = true.
Proof.
  induction s as [|c t IH]; [discriminate|]. intros H.
  destruct (leads_with_paren_cases _ H) as (c' & t' & Heq & Hc).
  injection Heq as <- <-. destruct Hc as [[Hc Ht] | ->].
  - cbn [strip_line_comments].
    destruct (space_not_marker c Hc) as [-> _]. cbn [andb].
    unfold leads_with_paren. cbn [drop_while]. rewrite Hc. now apply IH.
  - reflexivity.
Qed.

Lemma strip_block_comments_paren (s : string) :
  leads_with_paren s = true ->
  leads_with_paren (strip_block_comments Outside s) = true.
Proof.
  induction s as [|c t IH]; [discriminate|]. intros H.
  destruct (leads_with_paren_cases _ H) as (c' & t' & Heq & Hc).
  injection Heq as <- <-. destruct Hc as [[Hc Ht] | ->].
  - cbn [strip_block_comments].
    destruct (space_not_marker c Hc) as [_ ->]. cbn [andb].
    unfold leads_with_paren. cbn [drop_while]. rewrite Hc. now apply IH.
  - reflexivity.
Qed.

Lemma upper_paren (s : string) :
  leads_with_paren s = true -> leads_with_paren (upper s) = true.
Proof.
  induction s as [|c t IH]; [discriminate|]. intros H.
  destruct (leads_with_paren_cases _ H) as (c' & t' & Heq & Hc).
  injection Heq as <- <-. destruct Hc as [[Hc Ht] | ->].
  - unfold leads_with_paren. cbn [upper drop_while].
    rewrite isspace_upper_char, Hc. now apply IH.
  - reflexivity.
Qed.

Lemma scan_start_paren (s : string) :
  leads_with_paren s = true -> startswith "(" (scan Start s) = true.
Proof.
  induction s as [|c t IH]; [discriminate|]. intros H.
  destruct (leads_with_paren_cases _ H) as (c' & t' & Heq & Hc).
  injection Heq as <- <-. destruct Hc as [[Hc Ht] | ->].
  - cbn [scan]. rewrite Hc. now apply IH.
  - reflexivity.
Qed.

(** X21: a query that starts, after trimming, with an opening parenthesis has a
    trimmed normalized form that starts with one. *)
Lemma paren_prefix_survives (query : string) :
  startswith "(" (strip query) = true ->
  startswith "(" (strip (query_upper query)) = true.
Proof.
  intros H.
  assert (leads_with_paren query = true) as Hl.
  { unfold leads_with_paren. unfold strip, lstrip, rstrip in H.
    pose proof (drop_while_head isspace query) as Hh.
    destruct (drop_while isspace query) as [|c t]; [discriminate|].
    now rewrite (drop_end_keep _ _ _ Hh) in H. }
  apply startswith_strip; [reflexivity | reflexivity |].
  rewrite query_upper_scan. apply scan_start_paren, upper_paren.
  unfold strip_comments.
  now apply strip_block_comments_paren, strip_line_comments_paren.
Qed.

(** *** A line comment at the end of a query *)

Lemma strip_line_comments_in_comment (c : string) :
  contains (String newline "") c = false ->
  strip_line_comments true c = "".
Proof.
  induction c as [|x c IH]; [reflexivity|]. cbn [contains startswith].
  intros H. apply orb_false_iff in H as [Hx Hc].
  rewrite andb_true_r in Hx. cbn [strip_line_comments].
  rewrite Ascii.eqb_sym, Hx. now apply IH.
Qed.

Lemma strip_line_comments_trailing (a c : string) (skipping : bool) :
  ends_with_dash a = false ->
  contains (String newline "") c = false ->
  strip_line_comments skipping (a ++ "--" ++ c) = strip_line_comments skipping a.
Proof.
  intros Ha Hc. revert skipping Ha.
  induction a as [|x a IH]; intros skipping Ha.
  - cbn [append]. destruct skipping.
    + now apply (strip_line_comments_in_comment (String "-" (String "-" c))).
    + change (strip_line_comments true (String "-" c) = "").
      now apply (strip_line_comments_in_comment (String "-" c)).
  - assert (ends_with_dash a = false /\
            Ascii.eqb x "-" && startswith "-" (a ++ "--" ++ c) =
            Ascii.eqb x "-" && startswith "-" a) as [Ha' Hd].
    { destruct a as [|y a]; [|split; [exact Ha | reflexivity]].
      split; [reflexivity|]. cbn in Ha. rewrite Ha. reflexivity. }
    change (String x a ++ "--" ++ c) with (String x (a ++ "--" ++ c)).
    cbn [strip_line_comments]. rewrite Hd, !(IH _ Ha'). reflexivity.
Qed.

(** X20: a line comment without a line break, added after a query that does not
    end in a dash, does not change the verdict of the gate, whatever the
    comment says. *)
Lemma trailing_line_comment_ignored (a c : string) :
  ends_with_dash a = false ->
  contains (String newline "") c = false ->
  validate_query (a ++ "--" ++ c) = validate_query a.
Proof.
  intros Ha Hc. unfold validate_query, query_upper, strip_comments.
  now rewrite (strip_line_comments_trailing a c false Ha Hc).
Qed.

(** ** Integers as text, on samples *)

Example str_of_int_samples :
  map str_of_int [0; 7; 10; 100; -5; 1234567890; 2 ^ 70] =
  ["0"; "7"; "10"; "100"; "-5"; "1234567890"; "1180591620717411303424"].
Proof. reflexivity. Qed.

Example int_of_str_samples :
  map int_of_str
      [" 5 "; "+5"; "-5"; "1_0"; "_1"; "1_"; "1__0"; "007"; ""; "-"; "abc";
       "- 5"; "5.0"; "500"; "-0"] =
  [Some 5; Some 5; Some (-5); Some 10; None; None; None; Some 7; None; None;
   None; None; None; Some 500; Some 0].
Proof. reflexivity. Qed.

Example validate_query_samples :
  map validate_query
      ["select * from t"; "SELECT updates FROM deleted_records";
       "show tables"; "desc t"; "values (1)"; "explain select 1";
       "DROP TABLE foo"; "with x as (select 1) delete  from t";
       "call system.sync()"; ""; "( (SELECT 1))"; "((select 1))"] =
  [true; true; true; true; true; true; false; false; false; false; false; true].
Proof. reflexivity. Qed.

(** ** Every tool, every engine *)

Lemma opened_app (t1 t2 : trace) :
  opened (t1 ++ t2)%list = (opened t1 + opened t2)%nat.
Proof. unfold opened. now rewrite filter_app, length_app. Qed.

Lemma closed_app (t1 t2 : trace) :
  closed (t1 ++ t2)%list = (closed t1 + closed t2)%nat.
Proof. unfold closed. now rewrite filter_app, length_app. Qed.

Lemma forwarded_app (t1 t2 : trace) :
  forwarded (t1 ++ t2)%list = (forwarded t1 ++ forwarded t2)%list.
Proof. unfold forwarded. now rewrite flat_map_app. Qed.

Lemma fetch_sizes_app (t1 t2 : trace) :
  fetch_sizes (t1 ++ t2)%list = (fetch_sizes t1 ++ fetch_sizes t2)%list.
Proof. unfold fetch_sizes. now rewrite flat_map_app. Qed.

(** Case analysis on every answer of the engine that the goal inspects. *)
Ltac split_answers :=
  repeat match goal with
         | |- context [match ?x with _ => _ end] =>
             lazymatch x with
             | context [match _ with _ => _ end] => fail
             | _ => destruct x eqn:?
             end
         end.

Section Tools.

Variable value : Type.
Variable tabulate : list string -> list (list value) -> exn + string.
Variable cfg : config.
Variable eng : engine value.
Variable format_grouped : value -> exn + string.
Variable str_of_value : value -> string.

(** X12: the formatter catches what it raises and fetches at most once. *)
Lemma format_results_total (limit : Z) (tr : trace) :
  exists out,
    snd (format_results tabulate eng limit tr) = inr out /\
    (fst (format_results tabulate eng limit tr) = tr \/
     fst (format_results tabulate eng limit tr) = (tr ++ [Fetchmany limit])%list).
Proof.
  unfold format_results, try_except, bind, cursor_description,
    cursor_fetchmany, call, lift, ret.
  split_answers; cbn [fst snd]; eexists; split; try reflexivity; auto.
Qed.

Lemma format_error_message_marked (e : exn) (context : string) :
  startswith "‚ùå" (format_error_message cfg e context) = true.
Proof.
  unfold format_error_message.
  repeat match goal with
         | |- context [if ?b then _ else _] => destruct b
         end; reflexivity.
Qed.

(** One run of a tool returns a marked text and adds one of the seven
    shapes of events to the trace. *)
Lemma run_statement_shape (sql : string) (limit : Z) (header context : string)
      (tr : trace) :
  exists out ext,
    run_statement tabulate cfg eng sql limit header context tr =
      ((tr ++ ext)%list, inr out) /\
    In ext (run_shapes (connection_args cfg) sql limit) /\
    marked out = true.
Proof.
  unfold run_statement.
  unfold try_except, bind, get_trino_connection, cursor_open, cursor_execute,
    format_results, cursor_description, cursor_fetchmany, cursor_close,
    conn_close, lift, call, try_except, bind, ret, raise, run_shapes.
  split_answers; rewrite <- ?app_assoc; cbn [app];
    do 2 eexists; (split; [reflexivity|]);
    (split; [cbn; tauto|]);
    unfold marked; rewrite ?format_error_message_marked; reflexivity.
Qed.

(** A tool that runs one statement returns at once with a marked text, or
    runs the statement with a row limit of at most 1000. *)
Lemma invoke_cases (i : invocation) (tr : trace) :
  two_statements i = false ->
  (exists out, invoke tabulate cfg eng format_grouped str_of_value i tr = (tr, inr out) /\ marked out = true) \/
  (exists sql limit header context,
     invoke tabulate cfg eng format_grouped str_of_value i tr = run_statement tabulate cfg eng sql limit header context tr /\
     limit <= 1000).
Proof.
  destruct i as [query | | catalog | schema catalog | table schema catalog
                 | table schema catalog | table schema catalog
                 | table limit schema catalog | ]; cbn [invoke two_statements];
    try discriminate; intros _.
  - unfold execute_query.
    destruct (nonempty (strip query)); cbn [negb];
      [|left; eexists; split; reflexivity].
    destruct (validate_query query); cbn [negb];
      [|left; eexists; split; reflexivity].
    right. exists query, 100, "Query executed successfully",
      ("Executing query: " ++ take 100 query ++ "...").
    split; [reflexivity | lia].
  - right. do 4 eexists. split; [reflexivity | lia].
  - right. do 4 eexists. split; [reflexivity | lia].
  - right. do 4 eexists. split; [reflexivity | lia].
  - unfold describe_table. destruct (nonempty (strip table)); cbn [negb];
      [|left; eexists; split; reflexivity].
    right. do 4 eexists. split; [reflexivity | lia].
  - unfold show_columns. destruct (nonempty (strip table)); cbn [negb];
      [|left; eexists; split; reflexivity].
    right. do 4 eexists. split; [reflexivity | lia].
  - unfold sample_table. destruct (nonempty (strip table)); cbn [negb];
      [|left; eexists; split; reflexivity].
    unfold sample_limit.
    destruct (if nonempty (strip limit) then int_of_str limit else Some 10)
      as [n|]; [|left; eexists; split; reflexivity].
    right.
    exists (sample_statement (full_table_name cfg table schema catalog)
                             (if n >? 100 then 100 else n)),
      (if n >? 100 then 100 else n),
      ("Sample from " ++ full_table_name cfg table schema catalog),
      ("Sampling table: " ++ full_table_name cfg table schema catalog).
    split; [reflexivity|]. destruct (n >? 100) eqn:E; lia.
Qed.

Ltac unfold_calls :=
  unfold try_except, bind, get_trino_connection, cursor_open, cursor_execute,
    cursor_fetchone, format_results, cursor_description, cursor_fetchmany,
    cursor_close, conn_close, lift, call, try_except, bind, ret, raise.

Lemma get_table_stats_shape (table schema catalog : string) (tr : trace) :
  exists out ext,
    get_table_stats tabulate cfg eng format_grouped table schema catalog tr =
      ((tr ++ ext)%list, inr out) /\
    marked out = true /\
    (ext = [] \/
     In ext (stats_shapes (connection_args cfg)
               ("SELECT COUNT(*) as row_count FROM " ++
                full_table_name cfg table schema catalog)
               ("SHOW STATS FOR " ++ full_table_name cfg table schema catalog))).
Proof.
  unfold get_table_stats.
  destruct (nonempty (strip table)); cbn [negb];
    [|exists "‚ùå Error: Table name is required", [];
      rewrite app_nil_r; repeat split; now left].
  unfold_calls. unfold stats_shapes.
  split_answers; rewrite <- ?app_assoc; cbn [app];
    do 2 eexists; (split; [reflexivity|]);
    (split; [unfold marked; rewrite ?format_error_message_marked; reflexivity|]);
    right; cbn; tauto.
Qed.

Lemma test_connection_shape (tr : trace) :
  exists out ext,
    test_connection cfg eng str_of_value tr = ((tr ++ ext)%list, inr out) /\
    marked out = true /\
    In ext (test_shapes (connection_args cfg)).
Proof.
  unfold test_connection. unfold_calls. unfold test_shapes.
  split_answers; rewrite <- ?app_assoc; cbn [app];
    do 2 eexists; (split; [reflexivity|]);
    (split; [unfold marked; rewrite ?format_error_message_marked; reflexivity|]);
    cbn; tauto.
Qed.

(** Every invocation returns a marked text and adds the events of one run
    to the trace. *)
Lemma invoke_shape (i : invocation) (tr : trace) :
  exists out ext,
    invoke tabulate cfg eng format_grouped str_of_value i tr = ((tr ++ ext)%list, inr out) /\
    marked out = true /\
    tool_run (connection_args cfg) i ext.
Proof.
  destruct (two_statements i) eqn:Et.
  - destruct i; try discriminate; cbn [invoke].
    + destruct (get_table_stats_shape table schema catalog tr)
        as (out & ext & -> & Hm & [-> | Hin]);
        exists out; eexists; (split; [reflexivity|]); (split; [exact Hm|]).
      * now left.
      * right. right. split; [reflexivity|]. left. eauto.
    + destruct (test_connection_shape tr) as (out & ext & -> & Hm & Hin).
      exists out, ext. split; [reflexivity|]. split; [exact Hm|].
      right. right. split; [reflexivity|]. now right.
  - destruct (invoke_cases i tr Et)
      as [(out & -> & Hm) | (sql & limit & h & c & -> & Hl)].
    + exists out, []. rewrite app_nil_r. repeat split; [exact Hm | now left].
    + destruct (run_statement_shape sql limit h c tr) as (out & ext & -> & Hin & Hm).
      exists out, ext. split; [reflexivity|]. split; [exact Hm|].
      right. left. split; [exact Et|]. eauto.
Qed.

(** Case analysis on the events of a run. *)
Ltac run_cases H :=
  let a := fresh "a" in
  let b := fresh "b" in
  destruct H as [-> | [(_ & a & b & _ & H) | (_ & [(a & b & H) | H])]];
  [ | cbn in H | cbn in H | cbn in H ];
  repeat match type of H with
         | _ \/ _ => destruct H as [<- | H]
         | False => contradiction
         end.

(** X1: no tool raises: whatever the engine and the client do, every
    invocation of one of the nine tools returns a text, and the text starts
    with the failure mark or the success mark. *)
Theorem tools_return_marked_text (i : invocation) (tr : trace) :
  exists out,
    snd (invoke tabulate cfg eng format_grouped str_of_value i tr) = inr out /\ marked out = true.
Proof.
  destruct (invoke_shape i tr) as (out & ext & -> & Hm & _). now exists out.
Qed.

(** X2: an invocation keeps the trace it finds, opens at most one
    connection and closes no more connections than it opens. *)
Theorem one_connection_per_call (i : invocation) (tr : trace) :
  exists ext,
    fst (invoke tabulate cfg eng format_grouped str_of_value i tr) = (tr ++ ext)%list /\
    (opened ext <= 1)%nat /\ (closed ext <= opened ext)%nat.
Proof.
  destruct (invoke_shape i tr) as (out & ext & -> & _ & Hr).
  exists ext. split; [reflexivity|].
  run_cases Hr; cbn; lia.
Qed.

(** X3: an invocation sends the engine at most two statements, and at most
    one unless the tool is [get_table_stats] or [test_connection]; it calls
    [fetchmany] at most once, for at most 1000 rows. *)
Theorem statements_per_call (i : invocation) (tr : trace) :
  let tr' := fst (invoke tabulate cfg eng format_grouped str_of_value i tr) in
  exists sqls sizes,
    forwarded tr' = (forwarded tr ++ sqls)%list /\
    fetch_sizes tr' = (fetch_sizes tr ++ sizes)%list /\
    (List.length sqls <= 2)%nat /\
    (two_statements i = false -> (List.length sqls <= 1)%nat) /\
    (List.length sizes <= 1)%nat /\
    (forall n, In n sizes -> n <= 1000).
Proof.
  cbv zeta. destruct (invoke_shape i tr) as (out & ext & -> & _ & Hr).
  cbn [fst]. exists (forwarded ext), (fetch_sizes ext).
  rewrite forwarded_app, fetch_sizes_app.
  split; [reflexivity|]. split; [reflexivity|].
  assert (forall e : trace,
            (forall n, In n (fetch_sizes e) -> n <= 1000) ->
            (List.length (forwarded e) <= 2)%nat ->
            (two_statements i = false -> (List.length (forwarded e) <= 1)%nat) ->
            (List.length (fetch_sizes e) <= 1)%nat ->
            (List.length (forwarded e) <= 2)%nat /\
            (two_statements i = false -> (List.length (forwarded e) <= 1)%nat) /\
            (List.length (fetch_sizes e) <= 1)%nat /\
            (forall n, In n (fetch_sizes e) -> n <= 1000)) as Hsum by tauto.
  destruct Hr as [-> | [(Et & sql & limit & Hl & H) | (Et & H)]].
  - apply Hsum; cbn; try lia; intros n [].
  - cbn in H.
    repeat (destruct H as [<- | H];
            [apply Hsum; cbn; try lia;
             intros n Hn; repeat (destruct Hn as [<- | Hn]; [exact Hl|]);
             contradiction|]).
    contradiction.
  - rewrite Et in *. destruct H as [(c & s & H) | H]; cbn in H;
      repeat (destruct H as [<- | H];
              [apply Hsum; cbn; try lia; try discriminate;
               intros n Hn; repeat (destruct Hn as [<- | Hn]; [lia|]);
               contradiction|]);
      contradiction.
Qed.

(** X4: [execute_query] sends the engine nothing, or the query text itself,
    as the caller gave it, and only when the gate allows it. *)
Theorem execute_query_forwards_only_allowed (query : string) (tr : trace) :
  let tr' := fst (execute_query tabulate cfg eng query tr) in
  forwarded tr' = forwarded tr \/
  (validate_query query = true /\ nonempty (strip query) = true /\
   forwarded tr' = (forwarded tr ++ [query])%list).
Proof.
  cbv zeta. unfold execute_query.
  destruct (nonempty (strip query)) eqn:Hq; cbn [negb]; [|now left].
  destruct (validate_query query) eqn:Hv; cbn [negb]; [|now left].
  change (try_except _ _) with
    (run_statement tabulate cfg eng query 100 "Query executed successfully"
       ("Executing query: " ++ take 100 query ++ "...")).
  destruct (run_statement_shape query 100 "Query executed successfully"
              ("Executing query: " ++ take 100 query ++ "...") tr)
    as (out & ext & -> & Hin & _).
  cbn [fst]. rewrite forwarded_app. cbn in Hin.
  repeat (destruct Hin as [<- | Hin];
          [cbn; rewrite ?app_nil_r; first [now left | right; auto]|]).
  contradiction.
Qed.


Lemma run_statement_forwards (sql : string) (limit : Z) (header context : string)
      (tr : trace) :
  on_connect eng (connection_args cfg) tr = None ->
  on_cursor eng (tr ++ [Connect (connection_args cfg)])%list = None ->
  forwarded (fst (run_statement tabulate cfg eng sql limit header context tr)) =
    (forwarded tr ++ [sql])%list.
Proof.
  intros Hc Hk. unfold run_statement.
  unfold try_except, bind, get_trino_connection, cursor_open, cursor_execute,
    format_results, cursor_description, cursor_fetchmany, cursor_close,
    conn_close, lift, call, try_except, bind, ret, raise.
  rewrite Hc. cbn [outcome]. rewrite Hk. cbn [outcome].
  split_answers; cbn [fst]; rewrite <- ?app_assoc; cbn [app];
    rewrite forwarded_app; cbn; reflexivity.
Qed.

(** X5: with a connection and a cursor, blank schema and catalog arguments
    are filled from the configuration: [show_schemas] sends [SHOW SCHEMAS]
    with no catalog, [show_tables], [describe_table] and [show_columns]
    name the configured catalog and schema, and the table name is sent as
    it was given. *)
Theorem blank_names_use_configuration
        (table schema catalog : string) (tr : trace) :
  nonempty (strip schema) = false ->
  nonempty (strip catalog) = false ->
  nonempty (strip table) = true ->
  on_connect eng (connection_args cfg) tr = None ->
  on_cursor eng (tr ++ [Connect (connection_args cfg)])%list = None ->
  let here := TRINO_CATALOG cfg ++ "." ++ TRINO_SCHEMA cfg in
  let there := TRINO_CATALOG cfg ++ "." ++ TRINO_SCHEMA cfg ++ "." ++ table in
  forwarded (fst (show_schemas tabulate cfg eng catalog tr)) =
    (forwarded tr ++ ["SHOW SCHEMAS"])%list /\
  forwarded (fst (show_tables tabulate cfg eng schema catalog tr)) =
    (forwarded tr ++ [("SHOW TABLES FROM " ++ here)%string])%list /\
  forwarded (fst (describe_table tabulate cfg eng table schema catalog tr)) =
    (forwarded tr ++ [("DESCRIBE " ++ there)%string])%list /\
  forwarded (fst (show_columns tabulate cfg eng table schema catalog tr)) =
    (forwarded tr ++ [("SHOW COLUMNS FROM " ++ there)%string])%list.
Proof.
  intros Hs Hcat Ht Hc Hk here there. subst here there.
  unfold show_schemas, show_tables, describe_table, show_columns,
    full_table_name, stripped_or.
  rewrite Hs, Hcat, Ht. cbn [negb].
  rewrite !run_statement_forwards by assumption.
  repeat split.
Qed.

(** X6: a blank table name is refused with the same fixed message by
    [describe_table], [show_columns] and [sample_table], before any call to
    the engine and whatever the other arguments are. *)
Theorem blank_table_is_refused (table limit schema catalog : string) (tr : trace) :
  nonempty (strip table) = false ->
  let refused := (tr, inr "‚ùå Error: Table name is required") in
  describe_table tabulate cfg eng table schema catalog tr = refused /\
  show_columns tabulate cfg eng table schema catalog tr = refused /\
  sample_table tabulate cfg eng table limit schema catalog tr = refused.
Proof.
  intros Ht refused. unfold describe_table, show_columns, sample_table.
  rewrite Ht. repeat split.
Qed.

(** X7: on an engine and client that never raise, an invocation closes
    every connection it opens, and the close is the last call it makes. *)
Theorem no_failure_no_open_connection (i : invocation) (tr : trace) :
  (forall a t, on_connect eng a t = None) ->
  (forall t, on_cursor eng t = None) ->
  (forall q t, on_execute eng q t = None) ->
  (forall n t e, on_fetchmany eng n t <> inl e) ->
  (forall t e, on_fetchone eng t <> inl e) ->
  (forall t, on_cursor_close eng t = None) ->
  (forall t, on_conn_close eng t = None) ->
  fst (invoke tabulate cfg eng format_grouped str_of_value i tr) = tr \/
  exists mid,
    fst (invoke tabulate cfg eng format_grouped str_of_value i tr) =
      (tr ++ Connect (connection_args cfg) :: mid ++ [CloseConn])%list /\
    opened mid = O /\ closed mid = O.
Proof.
  intros Hc Hk He Hf Hf1 Hcc Hnc.
  assert (forall (t' : trace) l,
            t' = (tr ++ Connect (connection_args cfg) :: l)%list ->
            last l OpenCursor = CloseConn ->
            opened (removelast l) = O -> closed (removelast l) = O ->
            l <> [] ->
            t' = tr \/
            exists mid,
              t' = (tr ++ Connect (connection_args cfg) :: mid ++ [CloseConn])%list /\
              opened mid = O /\ closed mid = O) as Hend.
  { intros t' l Hr Hl Ho Hcl Hne. right. exists (removelast l).
    rewrite Hr. split; [|now split].
    rewrite <- Hl, <- (app_removelast_last OpenCursor Hne). reflexivity. }
  assert (two_statements i = false \/ two_statements i = true) as [Et | Et]
      by (destruct (two_statements i); auto).
  - destruct (invoke_cases i tr Et)
      as [(out & -> & _) | (sql & limit & h & c & -> & _)]; [now left|].
    unfold run_statement. unfold_calls.
    rewrite Hc. cbn [outcome]. rewrite Hk. cbn [outcome].
    rewrite He. cbn [outcome].
    split_answers;
      try match goal with
          | H : context [on_cursor_close _ _] |- _ => rewrite Hcc in H; discriminate
          | H : context [on_conn_close _ _] |- _ => rewrite Hnc in H; discriminate
          | H : on_fetchmany _ _ _ = inl _ |- _ => now apply Hf in H
          end;
      cbn [fst]; rewrite <- ?app_assoc; cbn [app];
      (eapply Hend; [reflexivity | reflexivity | reflexivity | reflexivity
                     | discriminate]).
  - destruct i; try discriminate; cbn [invoke].
    + unfold get_table_stats.
      destruct (nonempty (strip table)); cbn [negb]; [|now left].
      unfold_calls.
      rewrite Hc. cbn [outcome]. rewrite Hk. cbn [outcome].
      rewrite He. cbn [outcome].
      split_answers;
        try match goal with
            | H : context [on_cursor_close _ _] |- _ => rewrite Hcc in H; discriminate
            | H : context [on_conn_close _ _] |- _ => rewrite Hnc in H; discriminate
            | H : context [on_execute _ _ _] |- _ => rewrite He in H; discriminate
            | H : on_fetchmany _ _ _ = inl _ |- _ => now apply Hf in H
            | H : on_fetchone _ _ = inl _ |- _ => now apply Hf1 in H
            end;
        cbn [fst]; rewrite <- ?app_assoc; cbn [app];
        (eapply Hend; [reflexivity | reflexivity | reflexivity | reflexivity
                       | discriminate]).
    + unfold test_connection. unfold_calls.
      rewrite Hc. cbn [outcome]. rewrite Hk. cbn [outcome].
      rewrite He. cbn [outcome].
      split_answers;
        try match goal with
            | H : context [on_cursor_close _ _] |- _ => rewrite Hcc in H; discriminate
            | H : context [on_conn_close _ _] |- _ => rewrite Hnc in H; discriminate
            | H : context [on_execute _ _ _] |- _ => rewrite He in H; discriminate
            | H : on_fetchone _ _ = inl _ |- _ => now apply Hf1 in H
            end;
        cbn [fst]; rewrite <- ?app_assoc; cbn [app];
        (eapply Hend; [reflexivity | reflexivity | reflexivity | reflexivity
                       | discriminate]).
Qed.


(** *** A failed connection *)

Lemma startswith_append (p a b : string) :
  startswith p a = true -> startswith p (a ++ b) = true.
Proof.
  revert a. induction p as [|x p IH]; intros a H; [reflexivity|].
  destruct a as [|y a]; [discriminate|]. cbn in H |- *.
  apply andb_true_iff in H as [-> H]. cbn. now apply IH.
Qed.

Lemma contains_append_l (p a b : string) :
  contains p a = true -> contains p (a ++ b) = true.
Proof.
  induction a as [|y a IH]; intros H.
  - cbn in H. rewrite orb_false_r in H. destruct p; [|discriminate].
    destruct b; reflexivity.
  - cbn [contains] in H. apply orb_true_iff in H as [H | H].
    + change (String y a ++ b) with (String y (a ++ b)). cbn [contains].
      change (String y (a ++ b)) with (String y a ++ b).
      now rewrite (startswith_append _ _ b H).
    + change (String y a ++ b) with (String y (a ++ b)). cbn [contains].
      rewrite (IH H). apply orb_true_r.
Qed.

Lemma contains_append_r (p a b : string) :
  contains p b = true -> contains p (a ++ b) = true.
Proof.
  intros H. induction a as [|y a IH]; [exact H|].
  change (String y a ++ b) with (String y (a ++ b)). cbn [contains].
  rewrite IH. apply orb_true_r.
Qed.

Lemma lower_append (a b : string) : lower (a ++ b) = lower a ++ lower b.
Proof. induction a as [|y a IH]; cbn; [reflexivity | now rewrite IH]. Qed.

(** A word found in one line of a text is found in the text. *)
Lemma contains_lines (p x : string) (ls : list string) :
  In x ls -> contains p (lower x) = true ->
  contains p (lower (lines ls)) = true.
Proof.
  unfold lines. intros Hin Hx. induction ls as [|l ls IH]; [contradiction|].
  assert (join (String newline "") (l :: ls) =
          match ls with
          | [] => l
          | _ => l ++ String newline "" ++ join (String newline "") ls
          end) as -> by (destruct ls; reflexivity).
  destruct Hin as [-> | Hin].
  - destruct ls; [exact Hx|]. rewrite lower_append. now apply contains_append_l.
  - destruct ls as [|l' ls]; [contradiction|].
    rewrite !lower_append. now apply contains_append_r, contains_append_r, IH.
Qed.

(** The formatted text of an error that is not classified as an
    authentication or a query error mentions a connection. *)
Lemma formatted_mentions_connect (e : exn) (context : string) :
  let low := lower (exn_msg e) in
  contains "connect" low ||
  negb (contains "authentication" low || contains "unauthorized" low ||
        contains "syntax" low || contains "parse" low) = true ->
  contains "connect" (lower (format_error_message cfg e context)) = true.
Proof.
  cbv zeta. intros H. unfold format_error_message.
  destruct (contains "connection" (lower (exn_msg e)) ||
            contains "connect" (lower (exn_msg e))) eqn:E1.
  - eapply contains_lines; [left; reflexivity | reflexivity].
  - apply orb_false_iff in E1 as [_ E1]. rewrite E1 in H. cbn [orb] in H.
    apply negb_true_iff in H.
    apply orb_false_iff in H as [H Hp]. apply orb_false_iff in H as [H Hs].
    rewrite H, Hs, Hp. cbn [orb].
    eapply (contains_lines _ "- Network connectivity");
      [cbn; tauto | reflexivity].
Qed.

(** X9: when the connect call raises an error that the classification by
    key words takes for a connection error or for none in particular, every
    tool that gets as far as connecting returns the connection-error text,
    having made no other call. *)
Theorem connect_failure_is_connection_error
        (i : invocation) (tr : trace) (e : exn) :
  on_connect eng (connection_args cfg) tr = Some e ->
  (let low := lower (exn_msg e) in
   contains "connect" low ||
   negb (contains "authentication" low || contains "unauthorized" low ||
         contains "syntax" low || contains "parse" low) = true) ->
  fst (invoke tabulate cfg eng format_grouped str_of_value i tr) = tr \/
  exists out,
    invoke tabulate cfg eng format_grouped str_of_value i tr =
      ((tr ++ [Connect (connection_args cfg)])%list, inr out) /\
    startswith "‚ùå Connection Error: Cannot connect to Trino server" out = true.
Proof.
  intros Hc He.
  pose proof (formatted_mentions_connect e "Connection attempt" He) as Hm.
  assert (forall context,
            startswith "‚ùå Connection Error: Cannot connect to Trino server"
              (format_error_message cfg
                 {| exn_type := "Exception";
                    exn_msg := format_error_message cfg e "Connection attempt" |}
                 context) = true) as Hout.
  { intros context. unfold format_error_message at 1. cbn [exn_msg].
    rewrite Hm, orb_true_r. reflexivity. }
  assert (two_statements i = false \/ two_statements i = true) as [Et | Et]
      by (destruct (two_statements i); auto).
  - destruct (invoke_cases i tr Et)
      as [(out & -> & _) | (sql & limit & h & c & -> & _)]; [now left | right].
    unfold run_statement, try_except, bind, get_trino_connection, call,
      try_except, raise, ret.
    rewrite Hc. cbn [outcome]. eexists. split; [reflexivity | apply Hout].
  - destruct i; try discriminate; cbn [invoke].
    + unfold get_table_stats.
      destruct (nonempty (strip table)); cbn [negb]; [right | now left].
      unfold try_except, bind, get_trino_connection, call, try_except, raise, ret.
      rewrite Hc. cbn [outcome]. eexists. split; [reflexivity | apply Hout].
    + right. unfold test_connection.
      unfold try_except, bind, get_trino_connection, call, try_except, raise, ret.
      rewrite Hc. cbn [outcome]. eexists. split; [reflexivity | apply Hout].
Qed.


(** *** A refused statement *)


(** *** The version query of test_connection *)

Lemma contains_in_lines (p x : string) (ls : list string) :
  In x ls -> contains p x = true -> contains p (lines ls) = true.
Proof.
  unfold lines. intros Hin Hx. induction ls as [|l ls IH]; [contradiction|].
  assert (join (String newline "") (l :: ls) =
          match ls with
          | [] => l
          | _ => l ++ String newline "" ++ join (String newline "") ls
          end) as -> by (destruct ls; reflexivity).
  destruct Hin as [-> | Hin].
  - destruct ls; [exact Hx|]. now apply contains_append_l.
  - destruct ls as [|l' ls]; [contradiction|].
    now apply contains_append_r, contains_append_r, IH.
Qed.

(** X22: a refused version query does not fail [test_connection]: the tool
    goes on to the test query and, when that and the closes succeed, returns
    the success text with the version given as "Unable to retrieve version",
    the connection closed. *)
Theorem refused_version_is_not_fatal (tr : trace) (e : exn) (r : option (list value)) :
  let version := "SELECT version()" in
  let test := "SELECT 1 as test" in
  let t1 := (tr ++ [Connect (connection_args cfg)])%list in
  let t2 := (t1 ++ [OpenCursor])%list in
  let t3 := (t2 ++ [Execute version])%list in
  let t4 := (t3 ++ [Execute test])%list in
  let t5 := (t4 ++ [Fetchone])%list in
  let t6 := (t5 ++ [CloseCursor])%list in
  on_connect eng (connection_args cfg) tr = None ->
  on_cursor eng t1 = None ->
  on_execute eng version t2 = Some e ->
  on_execute eng test t3 = None ->
  on_fetchone eng t4 = inr r ->
  on_cursor_close eng t5 = None ->
  on_conn_close eng t6 = None ->
  exists out,
    test_connection cfg eng str_of_value tr = ((t6 ++ [CloseConn])%list, inr out) /\
    startswith "‚úÖ Connection Test Successful!" out = true /\
    contains "- Version: Unable to retrieve version" out = true.
Proof.
  cbv zeta. intros Hc Hk Hv Ht Hf Hcc Hnc.
  unfold test_connection. unfold_calls.
  rewrite Hc. cbn [outcome]. rewrite Hk. cbn [outcome].
  rewrite Hv. cbn [outcome]. rewrite Ht. cbn [outcome].
  rewrite Hf, Hcc. cbn [outcome]. rewrite Hnc. cbn [outcome].
  eexists. split; [reflexivity|]. split; [reflexivity|].
  eapply (contains_in_lines _ "- Version: Unable to retrieve version");
    [cbn; tauto | reflexivity].
Qed.


(** *** The row limit of sample_table *)

(** X10: whatever the limit argument is, [sample_table] either makes no call
    or runs one [SELECT] whose [LIMIT] is an integer of at most 100 and
    fetches with that same integer as the size. *)
Theorem sample_table_capped (table limit schema catalog : string) (tr : trace) :
  let r := sample_table tabulate cfg eng table limit schema catalog tr in
  fst r = tr \/
  exists n ext,
    n <= 100 /\
    fst r = (tr ++ ext)%list /\
    In ext (run_shapes (connection_args cfg)
              ("SELECT * FROM " ++ full_table_name cfg table schema catalog ++
               " LIMIT " ++ str_of_int n) n).
Proof.
  cbv zeta. unfold sample_table.
  destruct (nonempty (strip table)); cbn [negb]; [|now left].
  destruct (sample_limit limit) as [n|] eqn:Hl; [|now left].
  right. exists n.
  destruct (run_statement_shape
              (sample_statement (full_table_name cfg table schema catalog) n) n
              ("Sample from " ++ full_table_name cfg table schema catalog)
              ("Sampling table: " ++ full_table_name cfg table schema catalog) tr)
    as (out & ext & Hr & Hin & _).
  exists ext. split; [|split; [|exact Hin]].
  - unfold sample_limit in Hl.
    destruct (if nonempty (strip limit) then int_of_str limit else Some 10)
      as [m|]; [|discriminate].
    injection Hl as <-. destruct (m >? 100) eqn:E; lia.
  - unfold run_statement in Hr.
    change (fst (run_statement tabulate cfg eng
                   (sample_statement (full_table_name cfg table schema catalog) n) n
                   ("Sample from " ++ full_table_name cfg table schema catalog)
                   ("Sampling table: " ++ full_table_name cfg table schema catalog)
                   tr) = (tr ++ ext)%list).
    unfold run_statement. now rewrite Hr.
Qed.

(** *** Start-up *)

(** X13: the start-up checks end the process exactly when the host or the
    user is the empty text, and then without any call to the engine;
    otherwise the server runs whatever the connection probe meets, and the
    probe opens one connection and closes it when it got one. *)
Theorem startup_exits_only_on_empty_host_or_user (tr : trace) :
  let r := startup cfg eng tr in
  (nonempty (TRINO_HOST cfg) && nonempty (TRINO_USER cfg) = false ->
     r = (tr, inr (Exit 1))) /\
  (nonempty (TRINO_HOST cfg) && nonempty (TRINO_USER cfg) = true ->
     snd r = inr Run /\
     (on_connect eng (connection_args cfg) tr <> None ->
        fst r = (tr ++ [Connect (connection_args cfg)])%list) /\
     (on_connect eng (connection_args cfg) tr = None ->
        fst r = (tr ++ [Connect (connection_args cfg); CloseConn])%list)).
Proof.
  cbv zeta. unfold startup. split; intros H.
  - apply andb_false_iff in H as [-> | H]; [reflexivity|].
    rewrite H. destruct (nonempty (TRINO_HOST cfg)); reflexivity.
  - apply andb_true_iff in H as [-> ->]. cbn [negb].
    unfold try_except, bind, get_trino_connection, conn_close, call,
      try_except, ret, raise.
    destruct (on_connect eng (connection_args cfg) tr) eqn:Hc; cbn [outcome].
    + split; [reflexivity|]. split; [intros _; reflexivity | discriminate].
    + destruct (on_conn_close eng _); cbn [outcome fst snd];
        (split; [reflexivity|]); (split; [congruence|]);
        intros _; now rewrite <- app_assoc.
Qed.

End Tools.

(** *** The configuration *)

(** X14: a variable that is not set never stops the start-up: for a loaded
    configuration the check of host and user fails exactly when
    [TRINO_HOST] or [TRINO_USER] is set to the empty text. *)
Theorem unset_variables_are_defaulted (env : environ) (cfg : config) :
  load_config env = Some cfg ->
  (nonempty (TRINO_HOST cfg) && nonempty (TRINO_USER cfg) = false <->
   env "TRINO_HOST" = Some "" \/ env "TRINO_USER" = Some "").
Proof.
  unfold load_config, getenv. intros H.
  destruct (int_of_str _) as [port|]; [|discriminate].
  injection H as <-. cbn [TRINO_HOST TRINO_USER].
  destruct (env "TRINO_HOST") as [[|c h]|]; destruct (env "TRINO_USER") as [[|d u]|];
    cbn; split; intros H; try discriminate; try tauto;
    destruct H as [H | H]; discriminate.
Qed.

(** X15: the configuration is loaded exactly when [TRINO_PORT] is unset or
    holds an integer as [int] reads it; an unset port is 8088, and HTTPS is
    chosen exactly by the value [true] in any letter case. *)
Theorem load_config_port_and_scheme (env : environ) :
  (load_config env = None <->
   exists v, env "TRINO_PORT" = Some v /\ int_of_str v = None) /\
  (forall cfg, load_config env = Some cfg ->
     (env "TRINO_PORT" = None -> TRINO_PORT cfg = 8088) /\
     (TRINO_USE_HTTPS cfg = true <->
      exists v, env "TRINO_USE_HTTPS" = Some v /\ lower v = "true")).
Proof.
  unfold load_config, getenv. split.
  - destruct (env "TRINO_PORT") as [v|] eqn:Hv.
    + destruct (int_of_str v) eqn:Hi.
      * split; [discriminate|]. intros (v' & Hv' & Hn). congruence.
      * split; [eauto | reflexivity].
    + cbn. split; [discriminate|]. intros (v & Hv' & _). discriminate.
  - intros cfg H. destruct (int_of_str _) as [port|] eqn:Hp; [|discriminate].
    injection H as <-. cbn [TRINO_PORT TRINO_USE_HTTPS]. split.
    + intros Hn. rewrite Hn in Hp. cbn in Hp. congruence.
    + rewrite String.eqb_eq. destruct (env "TRINO_USE_HTTPS") as [v|].
      * split; [eauto|]. intros (v' & Hv' & Hl). congruence.
      * split; [discriminate|]. intros (v' & Hv' & _). discriminate.
Qed.


(** ** The normalized text *)

Lemma scan_no_trailing_space (st : scan_state) (s : string) :
  drop_end isspace (scan st s) = scan st s.
Proof.
  revert st. induction s as [|c t IH]; intros st; [reflexivity|].
  cbn [scan]. destruct (isspace c) eqn:Hc; [apply IH|].
  assert (drop_end isspace (String c (scan InWord t)) =
          String c (scan InWord t)) as Hw.
  { now rewrite (drop_end_keep _ _ _ Hc), IH. }
  destruct st; try exact Hw.
  cbn [drop_end]. cbn [drop_end] in Hw. rewrite Hw. reflexivity.
Qed.

Lemma scan_start_no_leading_space (s : string) :
  drop_while isspace (scan Start s) = scan Start s.
Proof.
  induction s as [|c t IH]; [reflexivity|]. cbn [scan].
  destruct (isspace c) eqn:Hc; [exact IH|]. cbn. now rewrite Hc.
Qed.

Lemma not_space_not_blank (c : ascii) :
  isspace c = false -> Ascii.eqb " " c = false.
Proof.
  intros H. destruct (Ascii.eqb " " c) eqn:E; [|reflexivity].
  apply Ascii.eqb_eq in E. subst c. discriminate.
Qed.

Lemma contains_cons (p : string) (c : ascii) (s : string) :
  contains p (String c s) = startswith p (String c s) || contains p s.
Proof. reflexivity. Qed.

Lemma all_chars_cons (f : ascii -> bool) (c : ascii) (s : string) :
  all_chars f (String c s) = f c && all_chars f s.
Proof. reflexivity. Qed.

Lemma scan_single_spaces (st : scan_state) (s : string) :
  contains "  " (scan st s) = false /\
  all_chars (fun c => negb (isspace c) || Ascii.eqb c " ") (scan st s) = true.
Proof.
  revert st. induction s as [|c t IH]; intros st; [split; reflexivity|].
  cbn [scan]. destruct (isspace c) eqn:Hc; [apply IH|].
  destruct (IH InWord) as [Hn Ha].
  assert (contains "  " (String c (scan InWord t)) = false /\
          all_chars (fun c => negb (isspace c) || Ascii.eqb c " ")
                    (String c (scan InWord t)) = true) as [Hn' Ha'].
  { split.
    - rewrite contains_cons, Hn, orb_false_r, startswith_cons.
      now rewrite (not_space_not_blank c Hc).
    - cbn [all_chars]. now rewrite Hc, Ha. }
  destruct st; try (split; assumption). split.
  - rewrite contains_cons, Hn', orb_false_r, !startswith_cons.
    now rewrite (not_space_not_blank c Hc), andb_false_r.
  - rewrite all_chars_cons, Ha'. reflexivity.
Qed.


(** X16: the text that the patterns and the keyword test see has no white
    space at either end, no white space but the space character and no two
    spaces in a row; trimming it again changes nothing. *)
Theorem normalized_text_is_single_spaced (query : string) :
  strip (query_upper query) = query_upper query /\
  contains "  " (query_upper query) = false /\
  all_chars (fun c => negb (isspace c) || Ascii.eqb c " ")
            (query_upper query) = true.
Proof.
  rewrite query_upper_scan. split; [|apply scan_single_spaces].
  unfold strip, lstrip, rstrip.
  now rewrite scan_start_no_leading_space, scan_no_trailing_space.
Qed.




(** ** The gate against the comment-free text *)

(** C2: the normalized form of [SELECT 1 /* DROP TABLE x -- */] starts with
    the allowed keyword [SELECT] and matches none of the forbidden patterns,
    and the gate rejects the query: its first pass has cut the closing
    marker of the block comment, whose words it then matches. *)
Theorem allowed_select_with_comment_is_rejected :
  Spec.normalized Samples.commented_drop = "SELECT 1" /\
  In "SELECT" allowed_starts /\
  startswith "SELECT" (Spec.normalized Samples.commented_drop) = true /\
  (forall p, In p forbidden_patterns ->
     search p (Spec.normalized Samples.commented_drop) = false) /\
  validate_query Samples.commented_drop = false.
Proof.
  split; [reflexivity|]. split; [left; reflexivity|]. split; [reflexivity|].
  split; [|reflexivity].
  intros p Hp.
  assert (forallb (fun p => negb (search p (Spec.normalized Samples.commented_drop)))
                  forbidden_patterns = true) as Hall by reflexivity.
  rewrite forallb_forall in Hall. now apply negb_true_iff, Hall.
Qed.

(** ** Opening parentheses *)




(** ** Letter case *)

Lemma upper_char_marker (c : ascii) :
  Ascii.eqb (upper_char c) newline = Ascii.eqb c newline /\
  Ascii.eqb (upper_char c) "-" = Ascii.eqb c "-" /\
  Ascii.eqb (upper_char c) "/" = Ascii.eqb c "/" /\
  Ascii.eqb (upper_char c) "*" = Ascii.eqb c "*" /\
  Ascii.eqb "-" (upper_char c) = Ascii.eqb "-" c /\
  Ascii.eqb "/" (upper_char c) = Ascii.eqb "/" c /\
  Ascii.eqb "*" (upper_char c) = Ascii.eqb "*" c.
Proof. destruct c as [[] [] [] [] [] [] [] []]; repeat split. Qed.

Lemma upper_char_idem (c : ascii) : upper_char (upper_char c) = upper_char c.
Proof. destruct c as [[] [] [] [] [] [] [] []]; reflexivity. Qed.

Lemma upper_idem (s : string) : upper (upper s) = upper s.
Proof.
  induction s as [|c t IH]; cbn; [reflexivity|].
  now rewrite upper_char_idem, IH.
Qed.

Lemma startswith_marker_upper (t : string) :
  startswith "-" (upper t) = startswith "-" t /\
  startswith "/" (upper t) = startswith "/" t /\
  startswith "*" (upper t) = startswith "*" t /\
  startswith "*/" (upper t) = startswith "*/" t.
Proof.
  destruct t as [|c t]; [repeat split|].
  destruct (upper_char_marker c) as (_ & _ & _ & _ & H1 & H2 & H3).
  cbn [upper]. rewrite !startswith_cons, H1, H2, H3. repeat split.
  destruct t as [|d t]; [reflexivity|].
  destruct (upper_char_marker d) as (_ & _ & _ & _ & _ & H2' & _).
  cbn [upper]. now rewrite !startswith_cons, H2'.
Qed.

Lemma contains_closer_upper (t : string) :
  contains "*/" (upper t) = contains "*/" t.
Proof.
  induction t as [|c t IH]; [reflexivity|].
  change (upper (String c t)) with (String (upper_char c) (upper t)).
  rewrite !contains_cons, IH. f_equal.
  destruct (startswith_marker_upper (String c t)) as (_ & _ & _ & H).
  exact H.
Qed.

Lemma upper_strip_line_comments (skipping : bool) (s : string) :
  upper (strip_line_comments skipping s) = strip_line_comments skipping (upper s).
Proof.
  revert skipping. induction s as [|c t IH]; intros skipping; [reflexivity|].
  cbn [upper strip_line_comments].
  destruct (upper_char_marker c) as (-> & -> & _).
  destruct (startswith_marker_upper t) as (-> & _).
  destruct skipping.
  - destruct (Ascii.eqb c newline); cbn [upper]; now rewrite IH.
  - destruct (Ascii.eqb c "-" && startswith "-" t); cbn [upper]; now rewrite IH.
Qed.

Lemma upper_strip_block_comments (st : block_state) (s : string) :
  upper (strip_block_comments st s) = strip_block_comments st (upper s).
Proof.
  revert st. induction s as [|c t IH]; intros st; [destruct st; reflexivity|].
  cbn [upper strip_block_comments].
  destruct (upper_char_marker c) as (_ & _ & -> & -> & _).
  destruct (startswith_marker_upper t) as (_ & -> & -> & _).
  assert (match upper t with
          | String _ t' => contains "*/" t'
          | EmptyString => false
          end =
          match t with
          | String _ t' => contains "*/" t'
          | EmptyString => false
          end) as ->.
  { destruct t as [|d t]; [reflexivity|]. cbn [upper].
    apply contains_closer_upper. }
  destruct st; try apply IH.
  - destruct (_ && _); cbn [upper]; now rewrite IH.
  - destruct (_ && _); apply IH.
Qed.

(** The normalized text is computed from the upper-case form of the query. *)
Lemma query_upper_of_upper (query : string) :
  query_upper query = scan Start (strip_comments (upper query)).
Proof.
  rewrite query_upper_scan. unfold strip_comments.
  now rewrite upper_strip_block_comments, upper_strip_line_comments.
Qed.

(** X18: the verdict of the gate does not depend on letter case: two
    queries with the same upper-case form get the same verdict. *)
Theorem validate_query_ignores_case (a b : string) :
  upper a = upper b -> validate_query a = validate_query b.
Proof.
  intros H. unfold validate_query.
  now rewrite (query_upper_of_upper a), (query_upper_of_upper b), H.
Qed.

Lemma validate_query_ignores_case_witness :
  validate_query "Select * From T" = validate_query "select * from t".
Proof.
  apply (validate_query_ignores_case "Select * From T" "select * from t").
  reflexivity.
Defined.


(** ** The properties on concrete runs *)

Lemma blank_names_use_configuration_witness :
  forwarded (fst (show_schemas Demo.grid Demo.cfg Demo.healthy " " [])) =
    ["SHOW SCHEMAS"] /\
  forwarded (fst (show_tables Demo.grid Demo.cfg Demo.healthy "" "" [])) =
    ["SHOW TABLES FROM tpch.tiny"] /\
  forwarded (fst (describe_table Demo.grid Demo.cfg Demo.healthy " orders" "" " " [])) =
    ["DESCRIBE tpch.tiny. orders"] /\
  forwarded (fst (show_columns Demo.grid Demo.cfg Demo.healthy " orders" "" " " [])) =
    ["SHOW COLUMNS FROM tpch.tiny. orders"].
Proof.
  pose proof (blank_names_use_configuration Z Demo.grid Demo.cfg Demo.healthy
                " orders" "" " " [] eq_refl eq_refl eq_refl eq_refl eq_refl)
    as (H1 & _ & H3 & H4).
  pose proof (blank_names_use_configuration Z Demo.grid Demo.cfg Demo.healthy
                " orders" "" "" [] eq_refl eq_refl eq_refl eq_refl eq_refl)
    as (_ & H2 & _ & _).
  repeat split; assumption.
Defined.

Lemma blank_table_is_refused_witness :
  sample_table Demo.grid Demo.cfg Demo.healthy "  " "abc" "s" "c" [] =
    ([], inr "‚ùå Error: Table name is required").
Proof.
  apply (blank_table_is_refused Z Demo.grid Demo.cfg Demo.healthy
           "  " "abc" "s" "c" [] eq_refl).
Defined.

Lemma no_failure_no_open_connection_witness :
  let r := invoke Demo.grid Demo.cfg Demo.healthy Outage.grouped Outage.shown
                  (GetTableStats "orders" "" "") [] in
  fst r = [] \/
  exists mid,
    fst r = ([] ++ Connect (connection_args Demo.cfg) :: mid ++ [CloseConn])%list /\
    opened mid = O /\ closed mid = O.
Proof.
  apply (no_failure_no_open_connection Z Demo.grid Demo.cfg Demo.healthy
           Outage.grouped Outage.shown (GetTableStats "orders" "" "") []);
    try reflexivity; intros; discriminate.
Defined.

Lemma connect_failure_is_connection_error_witness :
  let r := invoke Demo.grid Demo.cfg Outage.unreachable Outage.grouped
                  Outage.shown TestConnection [] in
  fst r = [] \/
  exists out,
    r = (([] ++ [Connect (connection_args Demo.cfg)])%list, inr out) /\
    startswith "‚ùå Connection Error: Cannot connect to Trino server" out = true.
Proof.
  apply (connect_failure_is_connection_error Z Demo.grid Demo.cfg
           Outage.unreachable Outage.grouped Outage.shown TestConnection []
           {| exn_type := "OSError"; exn_msg := "[Errno 111] refused by peer" |});
    reflexivity.
Defined.


Lemma startup_exits_only_on_empty_host_or_user_witness :
  snd (startup Demo.cfg Outage.unreachable []) = inr Run /\
  fst (startup Demo.cfg Demo.healthy []) =
    [Connect (connection_args Demo.cfg); CloseConn].
Proof.
  destruct (startup_exits_only_on_empty_host_or_user Z Demo.cfg
              Outage.unreachable []) as [_ H1].
  destruct (startup_exits_only_on_empty_host_or_user Z Demo.cfg
              Demo.healthy []) as [_ H2].
  destruct (H1 eq_refl) as (Hr & _). destruct (H2 eq_refl) as (_ & _ & Hc).
  split; [exact Hr | exact (Hc eq_refl)].
Defined.

Lemma unset_variables_are_defaulted_witness :
  exists cfg,
    load_config Outage.empty_user = Some cfg /\
    nonempty (TRINO_HOST cfg) && nonempty (TRINO_USER cfg) = false.
Proof.
  eexists. split; [reflexivity|].
  apply (unset_variables_are_defaulted Outage.empty_user _ eq_refl).
  right. reflexivity.
Defined.

Lemma load_config_port_and_scheme_witness :
  exists cfg,
    load_config Outage.secure = Some cfg /\ TRINO_USE_HTTPS cfg = true.
Proof.
  eexists. split; [reflexivity|].
  destruct (load_config_port_and_scheme Outage.secure) as [_ H].
  destruct (H _ eq_refl) as [_ Hs]. apply Hs.
  exists "True". split; reflexivity.
Defined.

Lemma trailing_line_comment_ignored_witness :
  validate_query ("SELECT 1" ++ "--" ++ " DROP TABLE x") = validate_query "SELECT 1".
Proof.
  apply (trailing_line_comment_ignored "SELECT 1" " DROP TABLE x"); reflexivity.
Defined.

Lemma paren_prefix_survives_witness :
  startswith "(" (strip (query_upper "  (select 1) -- note")) = true.
Proof.
  apply (paren_prefix_survives "  (select 1) -- note"). reflexivity.
Defined.

(** ** The two-statement tools and the digit limit, on samples *)

Example get_table_stats_run :
  get_table_stats Demo.grid Demo.cfg Demo.healthy Outage.grouped "orders" "" "" [] =
    ([Connect Demo.args; OpenCursor;
      Execute "SELECT COUNT(*) as row_count FROM tpch.tiny.orders"; Fetchone;
      Execute "SHOW STATS FOR tpch.tiny.orders"; Fetchmany 1000;
      CloseCursor; CloseConn],
     inr (lines [ "‚úÖ Statistics for tpch.tiny.orders:";
                  "";
                  "üìä Total Rows: 1,500";
                  "";
                  "üìà Column Statistics:";
                  "+---+";
                  "";
                  "Showing 2 row(s)" ])).
Proof. reflexivity. Qed.

Example test_connection_run :
  test_connection Demo.cfg Outage.no_version Outage.shown [] =
    ([Connect Demo.args; OpenCursor; Execute "SELECT version()";
      Execute "SELECT 1 as test"; Fetchone; CloseCursor; CloseConn],
     inr (lines [ "‚úÖ Connection Test Successful!";
                  "";
                  "üìä Server Information:";
                  "- Host: localhost:8088";
                  "- User: trino";
                  "- Catalog: tpch";
                  "- Schema: tiny";
                  "- Version: Unable to retrieve version";
                  "- Authentication: Disabled";
                  "- Protocol: HTTP";
                  "";
                  "‚úÖ Test query executed successfully" ])).
Proof. reflexivity. Qed.

Example grouped_samples :
  map Outage.grouped [0; 999; 1000; 1234567; -1500] =
  [inr "0"; inr "999"; inr "1,000"; inr "1,234,567"; inr "-1,500"].
Proof. reflexivity. Qed.

Example int_of_str_digit_limit :
  int_of_str (Outage.long_limit 4301) = None /\
  int_of_str (Outage.long_limit 4300) <> None /\
  sample_limit (Outage.long_limit 4300) = Some 100 /\
  snd (sample_table Demo.grid Demo.cfg Demo.healthy "orders"
         (Outage.long_limit 4301) "" "" []) =
    inr ("‚ùå Error: Invalid limit value: " ++ Outage.long_limit 4301).
Proof.
  split; [vm_compute; reflexivity|].
  split; [vm_compute; discriminate|].
  split; vm_compute; reflexivity.
Qed.

Lemma refused_version_is_not_fatal_witness :
  exists out,
    test_connection Demo.cfg Outage.no_version Outage.shown [] =
      ([Connect Demo.args; OpenCursor; Execute "SELECT version()";
        Execute "SELECT 1 as test"; Fetchone; CloseCursor; CloseConn], inr out) /\
    startswith "‚úÖ Connection Test Successful!" out = true /\
    contains "- Version: Unable to retrieve version" out = true.
Proof.
  apply (refused_version_is_not_fatal Z Demo.cfg Outage.no_version Outage.shown []
           {| exn_type := "TrinoUserError";
              exn_msg := "FUNCTION_NOT_FOUND: version" |} (Some [1]));
    reflexivity.
Defined.
